(** * Chimerox: a shallow embedding of the frame-synthesis core

    The generator of [src/chimerox.py] is embedded function by function.
    Python floats are IEEE-754 binary64 numbers, modelled by the executable
    reference implementation [SpecFloat] of the standard library; Python
    integers are [Z].  The library calls of the source ([random], [math],
    [colorsys], [cv2], the [float32] arrays of [numpy]) are the fields of
    the interface [PyLib]; everything else is translated from the source. *)

From Stdlib Require Import ZArith List Bool Lia.
From Stdlib Require Import Floats.SpecFloat.
From Stdlib Require Ascii String DecimalString.
Import String.StringSyntax.
Import ListNotations.
Open Scope Z_scope.

(* ================================================================== *)
(** * Python numbers *)
(* ================================================================== *)

(** A Python [float].  Only canonical ([valid_float]) values occur at run
    time; every operation below maps canonical values to canonical ones. *)
Definition float := spec_float.


Definition fadd : float -> float -> float := SFadd 53 1024.
Definition fsub : float -> float -> float := SFsub 53 1024.
Definition fmul : float -> float -> float := SFmul 53 1024.
Definition fsqrt : float -> float := SFsqrt 53 1024.
Definition fabs : float -> float := SFabs.

(** IEEE division; the source uses it through [/] with a divisor that is a
    non-zero literal.  [py_truediv] is the general Python operator. *)
Definition fdiv : float -> float -> float := SFdiv 53 1024.

(** [float(n)]: the nearest binary64 number (ties to even).  Python raises
    [OverflowError] from 2^1024 on, where this conversion yields infinity. *)
Definition of_int (n : Z) : float := binary_normalize 53 1024 n 0 false.

(** Decimal literals: [i.f] is the quotient of the integer [if] by a power
    of ten, both exactly representable for every literal of the source, so
    one correctly rounded division gives the nearest binary64 number. *)
Definition of_decimal (i : Decimal.int) (f : Decimal.uint) : float :=
  fdiv (of_int (Z.of_int (Decimal.app_int i f)))
       (of_int (10 ^ Z.of_nat (Decimal.nb_digits f))).

Definition float_of_number (n : Number.number) : option float :=
  match n with
  | Number.Decimal (Decimal.Decimal i f) => Some (of_decimal i f)
  | _ => None
  end.

Definition number_of_float (x : float) : option Number.number := None.

Declare Scope py_scope.
Delimit Scope py_scope with py.
Bind Scope py_scope with float spec_float.
Number Notation spec_float float_of_number number_of_float : py_scope.
Infix "+" := fadd : py_scope.
Infix "-" := fsub : py_scope.
Infix "*" := fmul : py_scope.
Infix "/" := fdiv : py_scope.

(** Float comparisons; each is [false] when an operand is NaN. *)
Definition flt (x y : float) : bool := SFltb x y.
Definition fle (x y : float) : bool := SFleb x y.
Definition fgt (x y : float) : bool := SFltb y x.
Definition fge (x y : float) : bool := SFleb y x.

Definition is_zero (x : float) : bool :=
  match x with S754_zero _ => true | _ => false end.

Definition is_finite (x : float) : bool :=
  match x with S754_zero _ | S754_finite _ _ _ => true | _ => false end.

Definition sign_bit (x : float) : bool :=
  match x with
  | S754_zero s | S754_infinity s | S754_finite s _ _ => s
  | S754_nan => false
  end.

(** [x / y] on floats: [ZeroDivisionError] on a zero divisor. *)
Definition py_truediv (x y : float) : option float :=
  if is_zero y then None else Some (fdiv x y).

(** [int(x)]: truncation toward zero; [OverflowError] on an infinity and
    [ValueError] on NaN. *)
Definition py_int (x : float) : option Z :=
  match x with
  | S754_zero _ => Some 0
  | S754_finite s m e =>
      let a := Z.shiftl (Zpos m) e in Some (if s then - a else a)
  | S754_infinity _ | S754_nan => None
  end.

(** [math.floor(x)], with the same exceptions. *)
Definition py_floor (x : float) : option Z :=
  match x with
  | S754_zero _ => Some 0
  | S754_finite s m e => Some (Z.shiftl (if s then Zneg m else Zpos m) e)
  | S754_infinity _ | S754_nan => None
  end.

(** Python compares an [int] with a [float] exactly. *)
Definition Zcompare_float (n : Z) (x : float) : option comparison :=
  match x with
  | S754_nan => None
  | S754_infinity s => Some (if s then Gt else Lt)
  | S754_zero _ => Some (n ?= 0)
  | S754_finite s m e =>
      let v := if s then Zneg m else Zpos m in
      match e with
      | Zneg p => Some (n * 2 ^ Zpos p ?= v)
      | _ => Some (n ?= v * 2 ^ e)
      end
  end.

Definition int_lt_float (n : Z) (x : float) : bool :=
  match Zcompare_float n x with Some Lt => true | _ => false end.
Definition int_le_float (n : Z) (x : float) : bool :=
  match Zcompare_float n x with Some (Lt | Eq) => true | _ => false end.
Definition int_gt_float (n : Z) (x : float) : bool :=
  match Zcompare_float n x with Some Gt => true | _ => false end.
Definition int_ge_float (n : Z) (x : float) : bool :=
  match Zcompare_float n x with Some (Gt | Eq) => true | _ => false end.

(** The same comparisons written with the float on the left. *)
Definition float_lt_int (x : float) (n : Z) : bool := int_gt_float n x.
Definition float_gt_int (x : float) (n : Z) : bool := int_lt_float n x.

(** The two-argument [min] and [max]: the first argument is kept unless the
    second is strictly smaller (larger). *)
Definition py_min (a b : float) : float := if flt b a then b else a.
Definition py_max (a b : float) : float := if fgt b a then b else a.

(** C [fmod]: the exact remainder of the truncated quotient; it carries the
    sign of [x] and is always representable. *)
Definition fmod (x y : float) : float :=
  match x, y with
  | S754_nan, _ | _, S754_nan => S754_nan
  | S754_infinity _, _ => S754_nan
  | _, S754_zero _ => S754_nan
  | S754_zero _, _ => x
  | S754_finite _ _ _, S754_infinity _ => x
  | S754_finite sx mx ex, S754_finite _ my ey =>
      let e := Z.min ex ey in
      let r := Z.rem (Zpos mx * 2 ^ (ex - e)) (Zpos my * 2 ^ (ey - e)) in
      binary_normalize 53 1024 (if sx then - r else r) e sx
  end.

(** [x % y] on floats: [fmod] adjusted to the sign of the divisor;
    [ZeroDivisionError] on a zero divisor. *)
Definition py_mod (x y : float) : option float :=
  if is_zero y then None
  else Some (let m := fmod x y in
             if is_zero m then S754_zero (sign_bit y)
             else if xorb (sign_bit y) (sign_bit m) then fadd m y else m).

(** [math.pi] *)
Definition math_pi : float := 3.141592653589793%py.

(* ================================================================== *)
(** * The libraries the generator calls *)
(* ================================================================== *)

(** A pixel of an 8-bit, 3-channel raster, and a raster as its rows. *)
Definition pixel := (Z * Z * Z)%type.
Definition canvas := list (list pixel).

(** The calls that leave the source.  [rng] is the state of the global
    stream of the [random] module, [nprng] that of [numpy.random]; the
    rasterisers of [cv2] are given by the set of pixels a shape covers, and
    [cv2.remap] by the value it samples for one destination pixel. *)
Class PyLib := {
  rng : Type;
  random_seed : Z -> rng;
  random_random : rng -> float * rng;
  nprng : Type;
  np_random_seed : Z -> nprng;
  libm_sin : float -> float;
  libm_cos : float -> float;
  math_atan2 : float -> float -> float;
  hsv_to_rgb : float -> float -> float -> float * float * float;
  f32 : Type;
  f32_of_int : Z -> f32;
  f32_iadd : f32 -> float -> f32;
  f32_clip : f32 -> Z -> Z -> f32;
  circle_covers : Z * Z -> Z -> Z -> Z * Z -> bool;
  line_covers : Z * Z -> Z * Z -> Z -> Z * Z -> bool;
  remap_sample : canvas -> f32 -> f32 -> pixel
}.

Section Generator.
Context {L : PyLib}.

(** The process state a run reads and writes: the two global streams. *)
Record world := { py_random : rng; np_random : nprng }.

(** Computations that read and advance the streams and may raise. *)
Definition M (A : Type) : Type := world -> option (A * world).

Definition ret {A} (a : A) : M A := fun w => Some (a, w).
Definition bind {A B} (m : M A) (k : A -> M B) : M B :=
  fun w => match m w with Some (a, w') => k a w' | None => None end.
Definition lift {A} (o : option A) : M A :=
  fun w => match o with Some a => Some (a, w) | None => None end.

Definition obind {A B} (o : option A) (k : A -> option B) : option B :=
  match o with Some a => k a | None => None end.

End Generator.

Declare Scope monad_scope.
Delimit Scope monad_scope with monad.
Notation "x <- m ;; k" := (bind m (fun x => k))
  (at level 61, m at next level, right associativity) : monad_scope.
Notation "' p <- m ;; k" := (bind m (fun x => let 'p := x in k))
  (at level 61, p pattern, m at next level, right associativity) : monad_scope.
Notation "x <-? o ;; k" := (obind o (fun x => k))
  (at level 61, o at next level, right associativity) : monad_scope.
Notation "' p <-? o ;; k" := (obind o (fun x => let 'p := x in k))
  (at level 61, p pattern, o at next level, right associativity) : monad_scope.
Open Scope monad_scope.

(* ================================================================== *)
(** * Data model *)
(* ================================================================== *)

(** The entities are the dictionaries of the source, one record per kind. *)
Module Particle.
Record t := mk {
  x : float; y : float; vx : float; vy : float; size : float;
  age : Z; life : float;
  orbit_radius : float; orbit_speed : float; color_offset : float }.
End Particle.

Module Bokeh.
Record t := mk {
  x : float; y : float; size : float; hue : float;
  flicker_offset : float; movement_angle : float; depth : float }.
End Bokeh.

Module Vortex.
Record t := mk {
  x : float; y : float; orbit_radius : float; orbit_speed : float;
  strength : float }.
End Vortex.

Module Center.
Record t := mk {
  x : float; y : float; strength : float; radius : float;
  rotation_speed : float; phase_offset : float }.
End Center.

(** The arguments of [Chimerox.__init__]. *)
Record config := {
  iota : Z; omicron : Z; phase : float; threshold : Z;
  resonance : float; entropy : float;
  width : Z; height : Z; duration : Z; fps : Z }.

(** The attributes of a [Chimerox] object: the arguments it was built from
    and what the constructor derives from them. *)
Record Chimerox := {
  args :> config;
  total_frames : Z;
  num_particles : Z;
  particles : list Particle.t;
  base_hue : float;
  hue_shift : float;
  bokeh_particles : list Bokeh.t;
  bokeh_movement_speed : float;
  wave_count : Z;
  wave_curves : Z;
  wave_depth : float;
  wave_speed : float;
  wave_opacity : Z;
  vortex_centers : list Vortex.t;
  vortex_intensity : float;
  vortex_rotation_speed : float;
  distortion_strength : float;
  distortion_type : Z;
  distortion_speed : float;
  distortion_centers : list Center.t }.

Definition set_particles (self : Chimerox) (ps : list Particle.t) : Chimerox :=
  {| args := self; total_frames := total_frames self;
     num_particles := num_particles self; particles := ps;
     base_hue := base_hue self; hue_shift := hue_shift self;
     bokeh_particles := bokeh_particles self;
     bokeh_movement_speed := bokeh_movement_speed self;
     wave_count := wave_count self; wave_curves := wave_curves self;
     wave_depth := wave_depth self; wave_speed := wave_speed self;
     wave_opacity := wave_opacity self;
     vortex_centers := vortex_centers self;
     vortex_intensity := vortex_intensity self;
     vortex_rotation_speed := vortex_rotation_speed self;
     distortion_strength := distortion_strength self;
     distortion_type := distortion_type self;
     distortion_speed := distortion_speed self;
     distortion_centers := distortion_centers self |}.

Definition set_bokeh_particles (self : Chimerox) (bs : list Bokeh.t) : Chimerox :=
  {| args := self; total_frames := total_frames self;
     num_particles := num_particles self; particles := particles self;
     base_hue := base_hue self; hue_shift := hue_shift self;
     bokeh_particles := bs;
     bokeh_movement_speed := bokeh_movement_speed self;
     wave_count := wave_count self; wave_curves := wave_curves self;
     wave_depth := wave_depth self; wave_speed := wave_speed self;
     wave_opacity := wave_opacity self;
     vortex_centers := vortex_centers self;
     vortex_intensity := vortex_intensity self;
     vortex_rotation_speed := vortex_rotation_speed self;
     distortion_strength := distortion_strength self;
     distortion_type := distortion_type self;
     distortion_speed := distortion_speed self;
     distortion_centers := distortion_centers self |}.

(** [range(n)] and [range(start, stop, step)]. *)
Definition range (n : Z) : list Z := map Z.of_nat (seq 0 (Z.to_nat n)).

Definition range3 (start stop step : Z) : list Z :=
  let count :=
    if 0 <? step then (stop - start + step - 1) / step
    else if step <? 0 then (start - stop - step - 1) / (- step)
    else 0 in
  map (fun i => start + i * step) (range count).

(* ================================================================== *)
(** * The random streams *)
(* ================================================================== *)

Section Streams.
Context {L : PyLib}.

(** [random.seed(n)] and [np.random.seed(n)] replace a stream. *)
Definition seed (n : Z) : M unit :=
  fun w => Some (tt, {| py_random := random_seed n; np_random := np_random w |}).

Definition np_seed (n : Z) : M unit :=
  fun w => Some (tt, {| py_random := py_random w; np_random := np_random_seed n |}).

(** [random.random()] draws from the global stream and advances it. *)
Definition random : M float :=
  fun w => let d := random_random (py_random w) in
           Some (fst d, {| py_random := snd d; np_random := np_random w |}).

(** [random.uniform(a, b)] is [a + (b - a) * random()]; with two integer
    bounds the difference is taken on integers. *)
Definition uniform (a b : float) : M float :=
  r <- random ;; ret (a + (b - a) * r)%py.

Definition uniform_int (a b : Z) : M float :=
  r <- random ;; ret (of_int a + of_int (b - a) * r)%py.

Fixpoint mapM {A B} (f : A -> M B) (l : list A) : M (list B) :=
  match l with
  | [] => ret []
  | a :: l' => b <- f a ;; bs <- mapM f l' ;; ret (b :: bs)
  end.

Fixpoint foldM {A B} (f : B -> A -> M B) (l : list A) (b : B) : M B :=
  match l with
  | [] => ret b
  | a :: l' => b' <- f b a ;; foldM f l' b'
  end.

Fixpoint ofold {A B} (f : B -> A -> option B) (l : list A) (b : B) : option B :=
  match l with
  | [] => Some b
  | a :: l' => b' <-? f b a ;; ofold f l' b'
  end.

End Streams.

(* ================================================================== *)
(** * Construction: [Chimerox.__init__] and the [_init_*] methods *)
(* ================================================================== *)

Section Construction.
Context {L : PyLib}.

(** One iteration of the loop of [_init_particles]. *)
Definition init_particle (c : config) (i : Z) : M Particle.t :=
  let seed_offset := (iota c + i * omicron c) mod 10000 in
  _ <- seed seed_offset ;;
  x <- uniform_int 0 (width c) ;;
  y <- uniform_int 0 (height c) ;;
  vx <- uniform_int (-4) 4 ;;
  vy <- uniform_int (-4) 4 ;;
  size <- uniform_int 2 12 ;;
  life <- uniform_int 80 300 ;;
  orbit_radius <- uniform_int 20 200 ;;
  orbit_speed <- uniform 0.02 0.08 ;;
  color_offset <- uniform_int 0 1 ;;
  ret (Particle.mk x y (vx * entropy c)%py (vy * entropy c)%py size
         0 life orbit_radius (orbit_speed * resonance c)%py color_offset).

Definition init_particles (c : config) (num_particles : Z) : M (list Particle.t) :=
  mapM (init_particle c) (range num_particles).

(** One iteration of the loop of [_init_bokeh]. *)
Definition init_bokeh_particle (c : config) (base_hue : float) : M Bokeh.t :=
  let palette_range := (of_int (omicron c mod 300) / 300)%py in
  r <- random ;;
  let hue_variation := ((r - 0.5) * palette_range)%py in
  hue <- lift (py_mod (base_hue + hue_variation)%py 1%py) ;;
  x <- uniform_int (-100) (width c + 100) ;;
  y <- uniform_int (-100) (height c + 100) ;;
  size <- uniform_int 40 180 ;;
  flicker_offset <- uniform (of_int 0) (math_pi * 2)%py ;;
  movement_angle <- uniform (of_int 0) (math_pi * 2)%py ;;
  depth <- uniform 0.4 1.2 ;;
  ret (Bokeh.mk x y size hue flicker_offset movement_angle depth).

Definition init_bokeh (c : config) (base_hue : float) : M (list Bokeh.t) :=
  bokeh_count <- lift (py_int (25 + of_int (threshold c) * 0.08)%py) ;;
  mapM (fun _ => init_bokeh_particle c base_hue) (range bokeh_count).

Definition init_vortex_center (c : config) : M Vortex.t :=
  x <- uniform (0.2 * of_int (width c))%py (0.8 * of_int (width c))%py ;;
  y <- uniform (0.2 * of_int (height c))%py (0.8 * of_int (height c))%py ;;
  orbit_radius <- uniform_int 50 150 ;;
  orbit_speed <- uniform 0.005 0.02 ;;
  strength <- uniform 0.5 1.5 ;;
  ret (Vortex.mk x y orbit_radius (orbit_speed * resonance c)%py
         (strength * entropy c)%py).

Definition init_vortex_centers (c : config) : M (list Vortex.t) :=
  vortex_count <- lift (py_int (2 + entropy c * 3)%py) ;;
  mapM (fun _ => init_vortex_center c) (range vortex_count).

Definition init_distortion_center (c : config)
    (distortion_strength distortion_speed : float) : M Center.t :=
  x <- uniform (0.3 * of_int (width c))%py (0.7 * of_int (width c))%py ;;
  y <- uniform (0.3 * of_int (height c))%py (0.7 * of_int (height c))%py ;;
  strength <- uniform 0.5 1.5 ;;
  radius <- uniform (of_int 100)
              (of_int (Z.min (width c) (height c)) * 0.4)%py ;;
  rotation_speed <- uniform 0.005 0.02 ;;
  phase_offset <- uniform (of_int 0) (math_pi * 2)%py ;;
  ret (Center.mk x y (strength * distortion_strength)%py radius
         (rotation_speed * distortion_speed)%py phase_offset).

Definition init_distortion_centers (c : config)
    (distortion_strength distortion_speed : float) : M (list Center.t) :=
  if flt distortion_strength 0.1%py then ret []
  else
    center_count <- lift (py_int (1 + entropy c * 2)%py) ;;
    mapM (fun _ => init_distortion_center c distortion_strength distortion_speed)
         (range center_count).

(** [Chimerox.__init__], statement by statement. *)
Definition Chimerox_init (c : config) : M Chimerox :=
  let total_frames := duration c * fps c in
  _ <- seed (iota c) ;;
  _ <- np_seed (iota c mod 2 ^ 32) ;;
  num_particles <-
    lift (py_int (of_int (threshold c) * 0.15 * (0.3 + entropy c * 0.7))%py) ;;
  particles <- init_particles c num_particles ;;
  let base_hue := (of_int (iota c mod 360) / 360)%py in
  let hue_shift := (of_int (omicron c mod 100) / 100)%py in
  bokeh_particles <- init_bokeh c base_hue ;;
  let bokeh_movement_speed := (0.8 + entropy c * 0.5)%py in
  wave_count <-
    lift (py_int (8 + (of_int (threshold c) / 100) * entropy c)%py) ;;
  wave_curves_frac <- lift (py_int (of_int (omicron c mod 5) * entropy c)%py) ;;
  let wave_curves := 1 + wave_curves_frac in
  let wave_depth :=
    (60 + (of_int (threshold c) / 15) * (1 + fabs (phase c)))%py in
  let wave_speed := (0.02 + resonance c * 0.008)%py in
  wave_opacity <- lift (py_int (80 + entropy c * 120)%py) ;;
  vortex_centers <- init_vortex_centers c ;;
  let vortex_intensity := (entropy c * resonance c * 1.5)%py in
  let vortex_rotation_speed := (0.03 + fabs (phase c) * 0.05)%py in
  let distortion_strength := (entropy c * resonance c * 0.3)%py in
  let distortion_type := omicron c mod 4 in
  let distortion_speed := (0.02 + fabs (phase c) * 0.03)%py in
  distortion_centers <-
    init_distortion_centers c distortion_strength distortion_speed ;;
  ret {| args := c; total_frames := total_frames;
         num_particles := num_particles; particles := particles;
         base_hue := base_hue; hue_shift := hue_shift;
         bokeh_particles := bokeh_particles;
         bokeh_movement_speed := bokeh_movement_speed;
         wave_count := wave_count; wave_curves := wave_curves;
         wave_depth := wave_depth; wave_speed := wave_speed;
         wave_opacity := wave_opacity;
         vortex_centers := vortex_centers;
         vortex_intensity := vortex_intensity;
         vortex_rotation_speed := vortex_rotation_speed;
         distortion_strength := distortion_strength;
         distortion_type := distortion_type;
         distortion_speed := distortion_speed;
         distortion_centers := distortion_centers |}.

End Construction.

(* ================================================================== *)
(** * Rasters *)
(* ================================================================== *)

(** [saturate_cast<uchar>] on an integer, the conversion [cv2] applies to a
    colour component, and the wrap-around of a [numpy] assignment. *)
Definition sat_u8 (v : Z) : Z := Z.max 0 (Z.min 255 v).
Definition wrap_u8 (v : Z) : Z := v mod 256.

Definition sat_pixel (p : pixel) : pixel :=
  let '(a, b, c) := p in (sat_u8 a, sat_u8 b, sat_u8 c).

(** [(rows, columns)] of a raster with at least one row:
    [canvas.shape[:2]]. *)
Definition shape (cv : canvas) : Z * Z :=
  (Z.of_nat (length cv), Z.of_nat (length (hd [] cv))).

(** Every row has [w] pixels and there are [h] rows. *)
Definition has_shape {A} (h w : Z) (cv : list (list A)) : Prop :=
  Z.of_nat (length cv) = h /\ Forall (fun row => Z.of_nat (length row) = w) cv.

(** [np.zeros((h, w, 3), dtype=np.uint8)]; negative dimensions raise. *)
Definition np_zeros (h w : Z) : option canvas :=
  if (h <? 0) || (w <? 0) then None
  else Some (repeat (repeat (0, 0, 0) (Z.to_nat w)) (Z.to_nat h)).

(** [canvas[:] = (a, b, c)] *)
Definition fill (cv : canvas) (color : pixel) : canvas :=
  let '(a, b, c) := color in
  map (map (fun _ => (wrap_u8 a, wrap_u8 b, wrap_u8 c))) cv.

Fixpoint imap_from {A B} (i : Z) (f : Z -> A -> B) (l : list A) : list B :=
  match l with
  | [] => []
  | a :: l' => f i a :: imap_from (i + 1) f l'
  end.

(** A raster rewritten pixel by pixel, [f] receiving the column and row. *)
Definition paint {A B} (f : Z * Z -> A -> B) (cv : list (list A)) : list (list B) :=
  imap_from 0 (fun y row => imap_from 0 (fun x px => f (x, y) px) row) cv.

Section Raster.
Context {L : PyLib}.

(** [cv2.circle(canvas, center, radius, color, thickness)] and
    [cv2.line(canvas, pt1, pt2, color, thickness)] overwrite the pixels the
    shape covers with the saturated colour. *)
Definition cv_circle (cv : canvas) (center : Z * Z) (radius : Z)
    (color : pixel) (thickness : Z) : canvas :=
  paint (fun xy px =>
           if circle_covers center radius thickness xy then sat_pixel color
           else px) cv.

Definition cv_line (cv : canvas) (pt1 pt2 : Z * Z) (color : pixel)
    (thickness : Z) : canvas :=
  paint (fun xy px =>
           if line_covers pt1 pt2 thickness xy then sat_pixel color else px) cv.

Fixpoint map2 {A B C} (f : A -> B -> C) (l1 : list A) (l2 : list B) : list C :=
  match l1, l2 with
  | a :: l1', b :: l2' => f a b :: map2 f l1' l2'
  | _, _ => []
  end.

(** [cv2.remap(canvas, map_x, map_y, INTER_LINEAR, BORDER_REFLECT)]: the
    result has the shape of the maps, each pixel sampled from [canvas]. *)
Definition cv_remap (cv : canvas) (map_x map_y : list (list f32)) : canvas :=
  map2 (map2 (fun mx my => sat_pixel (remap_sample cv mx my))) map_x map_y.

End Raster.

(** Rounding to the nearest integer, ties to even ([cvRound]). *)
Definition round_half_even (x : float) : Z :=
  match x with
  | S754_finite s m e =>
      let a :=
        match e with
        | Zneg p =>
            let q := Z.shiftr (Zpos m) (Zpos p) in
            let r := Zpos m - Z.shiftl q (Zpos p) in
            match 2 * r ?= 2 ^ Zpos p with
            | Lt => q
            | Gt => q + 1
            | Eq => if Z.even q then q else q + 1
            end
        | _ => Z.shiftl (Zpos m) e
        end in
      if s then - a else a
  | _ => 0
  end.

(** One channel of [cv2.addWeighted]:
    [saturate(src1 * alpha + src2 * beta + gamma)]. *)
Definition weighted_channel (a : Z) (alpha : float) (b : Z) (beta gamma : float) : Z :=
  sat_u8 (round_half_even (of_int a * alpha + of_int b * beta + gamma)%py).

Definition weighted_pixel (p : pixel) (alpha : float) (q : pixel)
    (beta gamma : float) : pixel :=
  let '(p1, p2, p3) := p in
  let '(q1, q2, q3) := q in
  (weighted_channel p1 alpha q1 beta gamma,
   weighted_channel p2 alpha q2 beta gamma,
   weighted_channel p3 alpha q3 beta gamma).

(** [cv2.addWeighted(src1, alpha, src2, beta, gamma)] on rasters of one
    shape. *)
Definition cv_addWeighted (src1 : canvas) (alpha : float) (src2 : canvas)
    (beta gamma : float) : canvas :=
  map2 (map2 (fun p q => weighted_pixel p alpha q beta gamma)) src1 src2.

(* ================================================================== *)
(** * The particle layer *)
(* ================================================================== *)

Section Particles.
Context {L : PyLib}.

(** [math.sin] and [math.cos] raise [ValueError] on an infinity, and
    [math.sqrt] on a negative argument. *)
Definition math_sin (x : float) : option float :=
  match x with S754_infinity _ => None | _ => Some (libm_sin x) end.

Definition math_cos (x : float) : option float :=
  match x with S754_infinity _ => None | _ => Some (libm_cos x) end.

Definition math_sqrt (x : float) : option float :=
  match x with
  | S754_infinity true | S754_finite true _ _ => None
  | _ => Some (fsqrt x)
  end.

(** [tuple(int(c * 255) for c in rgb)] *)
Definition rgb_to_color (rgb : float * float * float) : option pixel :=
  let '(r, g, b) := rgb in
  r' <-? py_int (r * 255)%py ;;
  g' <-? py_int (g * 255)%py ;;
  b' <-? py_int (b * 255)%py ;;
  Some (r', g', b').

(** [tuple(int(c * k) for c in color)] *)
Definition scale_color (color : pixel) (k : float) : option pixel :=
  let '(r, g, b) := color in
  r' <-? py_int (of_int r * k)%py ;;
  g' <-? py_int (of_int g * k)%py ;;
  b' <-? py_int (of_int b * k)%py ;;
  Some (r', g', b').

Definition get_color (self : Chimerox) (t : Z) (particle : Particle.t)
    : option pixel :=
  let base_t := ((of_int t + phase self) * resonance self)%py in
  s1 <-? math_sin (base_t * 0.01)%py ;;
  hue_mod <-? py_mod (base_hue self
                      + Particle.color_offset particle * hue_shift self
                      + s1 * 0.2)%py 1%py ;;
  s2 <-? math_sin (base_t * 0.02 + of_int (Particle.age particle) * 0.1)%py ;;
  let saturation := (0.7 + 0.3 * s2)%py in
  c3 <-? math_cos (base_t * 0.03)%py ;;
  let value := (0.8 + 0.2 * c3)%py in
  rgb_to_color (hsv_to_rgb hue_mod saturation value).

(** Lines 161-191 of [_update_particle]: the forces, the velocity and the
    position. *)
Definition move_particle (self : Chimerox) (particle : Particle.t) (frame : Z)
    : M Particle.t :=
  let t := (of_int frame + phase self * 1000)%py in
  s <- lift (math_sin (t * 0.01 + Particle.x particle * 0.01)%py) ;;
  let wave_force := (s * resonance self)%py in
  r <- random ;;
  let chaos_force := ((r - 0.5) * entropy self * 2)%py in
  let orbit_t := (t * Particle.orbit_speed particle
                  + of_int (omicron self mod 1000) * 0.01)%py in
  co <- lift (math_cos orbit_t) ;;
  let orbit_x := (co * Particle.orbit_radius particle)%py in
  so <- lift (math_sin orbit_t) ;;
  let orbit_y := (so * Particle.orbit_radius particle)%py in
  let vx := (Particle.vx particle + (wave_force * 0.1 + chaos_force))%py in
  c8 <- lift (math_cos (t * 0.008)%py) ;;
  let vy := (Particle.vy particle
             + (c8 * resonance self * 0.1 + chaos_force))%py in
  let center_x := (of_int (width self) / 2 + orbit_x)%py in
  let center_y := (of_int (height self) / 2 + orbit_y)%py in
  let dx := (center_x - Particle.x particle)%py in
  let dy := (center_y - Particle.y particle)%py in
  dist <- lift (math_sqrt (dx * dx + dy * dy)%py) ;;
  '(vx, vy) <-
    (if float_gt_int dist 0 then
       let force := py_min 1%py (of_int (threshold self) / 1000)%py in
       qx <- lift (py_truediv dx dist) ;;
       let vx := (vx + qx * force * 0.02)%py in
       qy <- lift (py_truediv dy dist) ;;
       let vy := (vy + qy * force * 0.02)%py in
       ret (vx, vy)
     else ret (vx, vy)) ;;
  ret (Particle.mk (Particle.x particle + vx)%py (Particle.y particle + vy)%py
         vx vy (Particle.size particle) (Particle.age particle)
         (Particle.life particle) (Particle.orbit_radius particle)
         (Particle.orbit_speed particle) (Particle.color_offset particle)).

(** Lines 193-197: one axis of the boundary wrap. *)
Definition wrap_coord (self : Chimerox) (coord : float) (extent : Z)
    : option float :=
  if float_lt_int coord 0 || float_gt_int coord extent
  then py_mod (coord + phase self * 100)%py (of_int extent)
  else Some coord.

Definition wrap_particle (self : Chimerox) (particle : Particle.t)
    : option Particle.t :=
  x <-? wrap_coord self (Particle.x particle) (width self) ;;
  y <-? wrap_coord self (Particle.y particle) (height self) ;;
  Some (Particle.mk x y (Particle.vx particle) (Particle.vy particle)
          (Particle.size particle) (Particle.age particle)
          (Particle.life particle) (Particle.orbit_radius particle)
          (Particle.orbit_speed particle) (Particle.color_offset particle)).

(** Line 200: [particle['age'] += 1]. *)
Definition age_particle (particle : Particle.t) : Particle.t :=
  Particle.mk (Particle.x particle) (Particle.y particle)
    (Particle.vx particle) (Particle.vy particle) (Particle.size particle)
    (Particle.age particle + 1)
    (Particle.life particle) (Particle.orbit_radius particle)
    (Particle.orbit_speed particle) (Particle.color_offset particle).

(** Lines 203-207: the respawn of a dead particle. *)
Definition respawn_particle (self : Chimerox) (particle : Particle.t)
    : M Particle.t :=
  if int_gt_float (Particle.age particle) (Particle.life particle) then
    x <- uniform_int 0 (width self) ;;
    y <- uniform_int 0 (height self) ;;
    life <- uniform_int 50 200 ;;
    ret (Particle.mk x y (Particle.vx particle) (Particle.vy particle)
           (Particle.size particle) 0 life (Particle.orbit_radius particle)
           (Particle.orbit_speed particle) (Particle.color_offset particle))
  else ret particle.

(** [_update_particle]: its four blocks in sequence. *)
Definition update_particle (self : Chimerox) (particle : Particle.t) (frame : Z)
    : M Particle.t :=
  moved <- move_particle self particle frame ;;
  wrapped <- lift (wrap_particle self moved) ;;
  respawn_particle self (age_particle wrapped).

(** [0 <= x < self.width and 0 <= y < self.height] on integers. *)
Definition on_canvas (self : Chimerox) (x y : Z) : bool :=
  (0 <=? x) && (x <? width self) && (0 <=? y) && (y <? height self).

(** The trail of one particle: the inner loop of step 4 of [_draw_frame]. *)
Definition draw_trail (self : Chimerox) (particle : Particle.t)
    (x y size : Z) (color : pixel) (trail_length : Z) (cv : canvas)
    : option canvas :=
  ofold (fun cv i =>
    trail_x <-? py_int (of_int x - Particle.vx particle * of_int i * 0.8)%py ;;
    trail_y <-? py_int (of_int y - Particle.vy particle * of_int i * 0.8)%py ;;
    if on_canvas self trail_x trail_y then
      q <-? py_truediv (of_int i) (of_int trail_length) ;;
      let alpha := (1 - q)%py in
      trail_color <-? (let '(r, g, b) := color in
                       r' <-? py_int (of_int r * alpha * 0.8)%py ;;
                       g' <-? py_int (of_int g * alpha * 0.8)%py ;;
                       b' <-? py_int (of_int b * alpha * 0.8)%py ;;
                       Some (r', g', b')) ;;
      sz <-? py_int (of_int size * alpha)%py ;;
      let trail_size := Z.max 1 sz in
      Some (cv_circle cv (trail_x, trail_y) trail_size trail_color (-1))
    else Some cv) (range3 1 trail_length 1) cv.

(** The body of the particle loop of [_draw_frame] once the particle is
    updated. *)
Definition draw_particle (self : Chimerox) (particle : Particle.t) (frame : Z)
    (cv : canvas) : option canvas :=
  color <-? get_color self frame particle ;;
  x <-? py_int (Particle.x particle) ;;
  y <-? py_int (Particle.y particle) ;;
  s <-? math_sin (of_int frame * 0.02)%py ;;
  size <-? py_int (Particle.size particle * (1 + s * 0.3))%py ;;
  if on_canvas self x y then
    let cv := cv_circle cv (x, y) size color (-1) in
    cv <-? (if fgt (entropy self) 0.5%py then
              let glow_size := size + 3 in
              glow_color <-? scale_color color 0.3%py ;;
              Some (cv_circle cv (x, y) glow_size glow_color 1)
            else Some cv) ;;
    trail_length <-? py_int (12 + resonance self * 8)%py ;;
    draw_trail self particle x y size color trail_length cv
  else Some cv.

(** Step 4 of [_draw_frame]: every particle, in list order, is updated and
    then drawn.  The updated particles replace the old ones in place. *)
Definition draw_particles (self : Chimerox) (frame : Z) (cv : canvas)
    : M (canvas * list Particle.t) :=
  foldM (fun acc particle =>
           let '(cv, done) := acc in
           particle' <- update_particle self particle frame ;;
           cv' <- lift (draw_particle self particle' frame cv) ;;
           ret (cv', done ++ [particle']))
        (particles self) (cv, []).

End Particles.

(* ================================================================== *)
(** * The bokeh, wave and vortex layers *)
(* ================================================================== *)

Section Layers.
Context {L : PyLib}.

(** The gradient of one blob: the inner loop of [_draw_bokeh]. *)
Definition draw_bokeh_gradient (x y size : Z) (color : pixel) (cv : canvas)
    : option canvas :=
  ofold (fun cv radius =>
    q <-? py_truediv (of_int radius) (of_int size) ;;
    let alpha := ((1 - q) * 0.6)%py in
    fade_color <-? scale_color color alpha ;;
    Some (cv_circle cv (x, y) radius fade_color (-1)))
    (range3 size 0 (- Z.max 1 (size / 6))) cv.

(** One iteration of the loop of [_draw_bokeh]: the blob drifts, wraps,
    flickers and is drawn. *)
Definition draw_bokeh_particle (self : Chimerox) (brightness : float)
    (frame : Z) (bokeh : Bokeh.t) (cv : canvas) : option (canvas * Bokeh.t) :=
  let movement_speed := (bokeh_movement_speed self * 0.3)%py in
  c <-? math_cos (Bokeh.movement_angle bokeh) ;;
  let bx := (Bokeh.x bokeh + c * movement_speed)%py in
  s <-? math_sin (Bokeh.movement_angle bokeh) ;;
  let by_ := (Bokeh.y bokeh + s * movement_speed)%py in
  let bx := if float_lt_int bx (-150) then of_int (width self + 100) else bx in
  let bx := if float_gt_int bx (width self + 150) then of_int (-100) else bx in
  let by_ := if float_lt_int by_ (-150) then of_int (height self + 100) else by_ in
  let by_ := if float_gt_int by_ (height self + 150) then of_int (-100) else by_ in
  let bokeh' := Bokeh.mk bx by_ (Bokeh.size bokeh) (Bokeh.hue bokeh)
                  (Bokeh.flicker_offset bokeh) (Bokeh.movement_angle bokeh)
                  (Bokeh.depth bokeh) in
  let flicker_t := (of_int frame * 0.008 + Bokeh.flicker_offset bokeh)%py in
  s1 <-? math_sin flicker_t ;;
  c1 <-? math_cos (flicker_t * 1.7)%py ;;
  let flicker := (0.7 + 0.3 * s1 * c1)%py in
  s2 <-? math_sin (of_int frame * 0.002 + Bokeh.hue bokeh * 10)%py ;;
  let saturation := (0.7 + 0.3 * s2)%py in
  let value := (brightness * flicker * Bokeh.depth bokeh)%py in
  color <-? rgb_to_color (hsv_to_rgb (Bokeh.hue bokeh) saturation value) ;;
  x <-? py_int bx ;;
  y <-? py_int by_ ;;
  size <-? py_int (Bokeh.size bokeh * (0.8 + 0.2 * flicker))%py ;;
  if (- size <=? x) && (x <=? width self + size)
     && (- size <=? y) && (y <=? height self + size)
  then cv' <-? draw_bokeh_gradient x y size color cv ;; Some (cv', bokeh')
  else Some (cv, bokeh').

Definition draw_bokeh (self : Chimerox) (cv : canvas) (frame : Z)
    : option (canvas * list Bokeh.t) :=
  let brightness := (0.5 + (phase self + 1) * 0.4)%py in
  ofold (fun acc bokeh =>
           let '(cv, done) := acc in
           '(cv', bokeh') <-? draw_bokeh_particle self brightness frame bokeh cv ;;
           Some (cv', done ++ [bokeh']))
        (bokeh_particles self) (cv, []).

(** The sample points of one ribbon: the loop over [x] of [_draw_waves]. *)
Definition wave_points (self : Chimerox) (t wave_offset frequency amplitude : float)
    (wave_idx : Z) : option (list (Z * Z)) :=
  ofold (fun points x =>
    let y_base := height self / 3 + wave_idx * height self / (wave_count self + 1) in
    s1 <-? math_sin (of_int x * frequency + t * 2 + wave_offset)%py ;;
    let wave1 := (amplitude * s1)%py in
    q <-? py_truediv (of_int x) (of_int (width self)) ;;
    sd <-? math_sin (t * 0.5 + wave_offset)%py ;;
    let diagonal_flow := (q * 150 * sd)%py in
    s2 <-? math_sin (of_int x * frequency * 1.8 + t * 1.3 + wave_offset)%py ;;
    let wave2 := (amplitude * 0.4 * s2)%py in
    c3 <-? math_cos (of_int x * frequency * 0.6 + t * 0.7 + wave_offset)%py ;;
    let wave3 := (amplitude * 0.2 * c3)%py in
    y <-? py_int (of_int y_base + wave1 + wave2 + wave3 + diagonal_flow)%py ;;
    Some (points ++ [(x, y)]))
    (range3 0 (width self) (Z.max 1 (width self / 300))) [].

(** The strokes of one ribbon: the loop over consecutive points. *)
Definition draw_wave_segments (self : Chimerox) (points : list (Z * Z))
    (wave_color : pixel) (thickness : Z) (cv : canvas) : option canvas :=
  ofold (fun cv seg =>
    let '((x1, y1), (x2, y2)) := seg in
    if (0 <=? y1) && (y1 <? height self) && (0 <=? y2) && (y2 <? height self)
    then
      glow_color <-? scale_color wave_color 0.4%py ;;
      let cv := cv_line cv (x1, y1) (x2, y2) glow_color (thickness + 8) in
      Some (cv_line cv (x1, y1) (x2, y2) wave_color thickness)
    else Some cv)
    (combine points (tl points)) cv.

Definition draw_wave (self : Chimerox) (t : float) (cv : canvas) (wave_idx : Z)
    : option canvas :=
  q <-? py_truediv (math_pi * 2)%py (of_int (wave_count self)) ;;
  let wave_offset := (of_int wave_idx * q)%py in
  let frequency := (0.008 + resonance self * 0.003)%py in
  s <-? math_sin (t + wave_offset)%py ;;
  let amplitude := (wave_depth self * (0.8 + 0.4 * s))%py in
  points <-? wave_points self t wave_offset frequency amplitude wave_idx ;;
  hue <-? py_mod (base_hue self + of_int wave_idx * 0.15 + t * 0.02)%py 1%py ;;
  let saturation := (0.8 + resonance self * 0.2)%py in
  sv <-? math_sin (t * 3 + wave_offset)%py ;;
  let value := (0.8 + 0.2 * sv)%py in
  wave_color <-? rgb_to_color (hsv_to_rgb hue saturation value) ;;
  th <-? py_int (6 + entropy self * 8)%py ;;
  let thickness := Z.max 2 th in
  draw_wave_segments self points wave_color thickness cv.

Definition draw_waves (self : Chimerox) (cv : canvas) (frame : Z) : option canvas :=
  let t := (of_int frame * wave_speed self)%py in
  ofold (draw_wave self t) (range (wave_count self)) cv.

(** [0 <= x < self.width and 0 <= y < self.height] on floats. *)
Definition on_canvas_f (self : Chimerox) (x y : float) : bool :=
  int_le_float 0 x && float_lt_int x (width self)
  && int_le_float 0 y && float_lt_int y (height self).

(** One point of a spiral: the body of the inner loop of
    [_draw_vortex_field]. *)
Definition draw_spiral_point (self : Chimerox) (vortex : Vortex.t)
    (t center_x center_y : float) (spiral_points : Z) (cv : canvas)
    (spiral_idx : Z) : option canvas :=
  q <-? py_truediv (of_int spiral_idx) (of_int spiral_points) ;;
  let angle_step := (q * math_pi * 4)%py in
  let radius := spiral_idx * 2 + 10 in
  let rotation := (t * vortex_rotation_speed self + angle_step)%py in
  c <-? math_cos rotation ;;
  let x := (center_x + c * of_int radius)%py in
  s <-? math_sin rotation ;;
  let y := (center_y + s * of_int radius)%py in
  if on_canvas_f self x y then
    energy_hue <-? py_mod (base_hue self + rotation * 0.1)%py 1%py ;;
    se <-? math_sin (t * 3 + of_int spiral_idx)%py ;;
    let energy_saturation := (0.8 + 0.2 * se)%py in
    let energy_value := (Vortex.strength vortex * (1 - q) * 0.8)%py in
    energy_color <-?
      rgb_to_color (hsv_to_rgb energy_hue energy_saturation energy_value) ;;
    ps <-? py_int (3 * Vortex.strength vortex * (1 - q))%py ;;
    let particle_size := Z.max 1 ps in
    ix <-? py_int x ;;
    iy <-? py_int y ;;
    let cv := cv_circle cv (ix, iy) particle_size energy_color (-1) in
    if (0 <? spiral_idx) && (spiral_idx mod 3 =? 0) then
      qp <-? py_truediv (of_int (spiral_idx - 3)) (of_int spiral_points) ;;
      let prev_angle := (qp * math_pi * 4)%py in
      let prev_radius := (spiral_idx - 3) * 2 + 10 in
      let prev_rotation := (t * vortex_rotation_speed self + prev_angle)%py in
      cp <-? math_cos prev_rotation ;;
      let prev_x := (center_x + cp * of_int prev_radius)%py in
      sp <-? math_sin prev_rotation ;;
      let prev_y := (center_y + sp * of_int prev_radius)%py in
      if on_canvas_f self prev_x prev_y then
        line_color <-? scale_color energy_color 0.4%py ;;
        ipx <-? py_int prev_x ;;
        ipy <-? py_int prev_y ;;
        ix <-? py_int x ;;
        iy <-? py_int y ;;
        Some (cv_line cv (ipx, ipy) (ix, iy) line_color 1)
      else Some cv
    else Some cv
  else Some cv.

Definition draw_vortex (self : Chimerox) (t : float) (cv : canvas)
    (vortex : Vortex.t) : option canvas :=
  let orbit_t := (t * Vortex.orbit_speed vortex)%py in
  c <-? math_cos orbit_t ;;
  let center_x := (Vortex.x vortex + c * 30)%py in
  s <-? math_sin orbit_t ;;
  let center_y := (Vortex.y vortex + s * 30)%py in
  spiral_points <-? py_int (20 + of_int (threshold self) * 0.1)%py ;;
  ofold (draw_spiral_point self vortex t center_x center_y spiral_points)
        (range spiral_points) cv.

Definition draw_vortex_field (self : Chimerox) (cv : canvas) (frame : Z)
    : option canvas :=
  if flt (vortex_intensity self) 0.3%py then Some cv
  else
    let t := (of_int frame * 0.01)%py in
    ofold (draw_vortex self t) (vortex_centers self) cv.

End Layers.

(* ================================================================== *)
(** * The distortion engine *)
(* ================================================================== *)

Section Distortion.
Context {L : PyLib}.

(** [m[row, col] = f(m[row, col])] on a two-dimensional array. *)
Fixpoint update_nth {A} (n : nat) (f : A -> A) (l : list A) : list A :=
  match l, n with
  | [], _ => []
  | a :: l', O => f a :: l'
  | a :: l', S n' => a :: update_nth n' f l'
  end.

Definition update2 {A} (m : list (list A)) (row col : Z) (f : A -> A)
    : list (list A) :=
  update_nth (Z.to_nat row) (update_nth (Z.to_nat col) f) m.

(** The identity displacement: [map_x[y, x] = x] and [map_y[y, x] = y]. *)
Definition identity_maps (height width : Z) : list (list f32) * list (list f32) :=
  (map (fun _ => map f32_of_int (range width)) (range height),
   map (fun y => map (fun _ => f32_of_int y) (range width)) (range height)).

(** The offset of one sampled pixel under the selected kernel. *)
Definition distortion_offset (self : Chimerox) (center : Center.t)
    (t dx dy distance influence : float) (x y : Z) : option (float * float) :=
  match distortion_type self with
  | 0 =>
      let angle := (math_atan2 dy dx + influence * 2 + t)%py in
      s <-? math_sin (distance * 0.05 + t)%py ;;
      let new_dist := (distance * (1 + influence * 0.1 * s))%py in
      ca <-? math_cos angle ;;
      sa <-? math_sin angle ;;
      Some ((ca * new_dist - dx)%py, (sa * new_dist - dy)%py)
  | 1 =>
      s <-? math_sin (distance * 0.1 - t * 3)%py ;;
      let ripple := (s * influence * 10)%py in
      if float_gt_int distance 0 then
        qx <-? py_truediv dx distance ;;
        qy <-? py_truediv dy distance ;;
        Some ((qx * ripple)%py, (qy * ripple)%py)
      else Some (of_int 0, of_int 0)
  | 2 =>
      s <-? math_sin (t * 2)%py ;;
      let zoom_factor := (1 + influence * 0.3 * s)%py in
      Some ((dx * (zoom_factor - 1))%py, (dy * (zoom_factor - 1))%py)
  | 3 =>
      s <-? math_sin (of_int y * 0.02 + t * 2)%py ;;
      c <-? math_cos (of_int x * 0.02 + t * 1.7)%py ;;
      Some ((influence * 15 * s)%py, (influence * 15 * c)%py)
  | _ => Some (of_int 0, of_int 0)
  end.

(** The block of [step] by [step] pixels at [(x, y)] receives one offset. *)
Definition add_to_block (maps : list (list f32) * list (list f32))
    (x y step height width : Z) (offset_x offset_y : float)
    : list (list f32) * list (list f32) :=
  fold_left (fun maps fy =>
    fold_left (fun maps fx =>
      let '(map_x, map_y) := maps in
      (update2 map_x fy fx (fun v => f32_iadd v offset_x),
       update2 map_y fy fx (fun v => f32_iadd v offset_y)))
      (range3 x (Z.min (x + step) width) 1) maps)
    (range3 y (Z.min (y + step) height) 1) maps.

(** The body of the loops over the sampled pixels for one centre. *)
Definition distort_sample (self : Chimerox) (center : Center.t)
    (t center_x center_y : float) (step height width : Z)
    (maps : list (list f32) * list (list f32)) (y x : Z)
    : option (list (list f32) * list (list f32)) :=
  let dx := (of_int x - center_x)%py in
  let dy := (of_int y - center_y)%py in
  distance <-? math_sqrt (dx * dx + dy * dy)%py ;;
  if flt distance (Center.radius center) && float_gt_int distance 1 then
    q <-? py_truediv distance (Center.radius center) ;;
    let influence := ((1 - q) * Center.strength center)%py in
    '(offset_x, offset_y) <-?
      distortion_offset self center t dx dy distance influence x y ;;
    Some (add_to_block maps x y step height width offset_x offset_y)
  else Some maps.

Definition distort_center (self : Chimerox) (t : float) (step height width : Z)
    (maps : list (list f32) * list (list f32)) (center : Center.t)
    : option (list (list f32) * list (list f32)) :=
  let arg := (t * Center.rotation_speed center + Center.phase_offset center)%py in
  c <-? math_cos arg ;;
  let center_x := (Center.x center + 20 * c)%py in
  s <-? math_sin arg ;;
  let center_y := (Center.y center + 20 * s)%py in
  ofold (fun maps y =>
           ofold (fun maps x =>
                    distort_sample self center t center_x center_y
                      step height width maps y x)
                 (range3 0 width step) maps)
        (range3 0 height step) maps.

(** [step = max(1, int(4 - self.distortion_strength * 8))] *)
Definition sampling_step (self : Chimerox) : option Z :=
  st <-? py_int (4 - distortion_strength self * 8)%py ;;
  Some (Z.max 1 st).

(** The clipped displacement field of a frame: everything between the skip
    test and the call of [cv2.remap]. *)
Definition displacement_maps (self : Chimerox) (cv : canvas) (frame : Z)
    : option (list (list f32) * list (list f32)) :=
  let t := (of_int frame * distortion_speed self)%py in
  let '(height, width) := shape cv in
  step <-? sampling_step self ;;
  maps <-? ofold (distort_center self t step height width)
                 (distortion_centers self) (identity_maps height width) ;;
  let '(map_x, map_y) := maps in
  Some (map (map (fun v => f32_clip v 0 (width - 1))) map_x,
        map (map (fun v => f32_clip v 0 (height - 1))) map_y).

Definition blend_factor (self : Chimerox) : float :=
  py_min 1%py (distortion_strength self * 2)%py.

Definition apply_reality_distortion (self : Chimerox) (cv : canvas) (frame : Z)
    : option canvas :=
  if flt (distortion_strength self) 0.05%py then Some cv
  else
    '(map_x, map_y) <-? displacement_maps self cv frame ;;
    let distorted := cv_remap cv map_x map_y in
    let blend_factor := blend_factor self in
    Some (cv_addWeighted cv (1 - blend_factor)%py distorted blend_factor
            (of_int 0)).

End Distortion.

(* ================================================================== *)
(** * The frame sequencer *)
(* ================================================================== *)

Section Sequencer.
Context {L : PyLib}.

(** The tint the buffer is cleared to at the start of [_draw_frame]. *)
Definition background (self : Chimerox) (frame : Z) : option pixel :=
  s <-? math_sin (of_int frame * 0.01 + phase self)%py ;;
  bg_intensity <-? py_int (20 + 10 * s)%py ;;
  Some (bg_intensity, bg_intensity / 2, bg_intensity / 3).

(** [_draw_frame] up to the distortion pass: the cleared buffer and the
    four layers in their order. *)
Definition composite (self : Chimerox) (frame : Z) : M (canvas * Chimerox) :=
  cv <- lift (np_zeros (height self) (width self)) ;;
  bg <- lift (background self frame) ;;
  let cv := fill cv bg in
  '(cv, bokeh) <- lift (draw_bokeh self cv frame) ;;
  let self := set_bokeh_particles self bokeh in
  cv <- lift (draw_waves self cv frame) ;;
  cv <- lift (draw_vortex_field self cv frame) ;;
  '(cv, ps) <- draw_particles self frame cv ;;
  ret (cv, set_particles self ps).

(** [_draw_frame]: the finished frame and the object as the call leaves
    it. *)
Definition draw_frame (self : Chimerox) (frame : Z) : M (canvas * Chimerox) :=
  '(cv, self) <- composite self frame ;;
  cv <- lift (apply_reality_distortion self cv frame) ;;
  ret (cv, self).

(** The frame loop of [generate]: the frames handed to the video sink, in
    order, and the final object and streams unless a frame raised. *)
Fixpoint frame_loop (self : Chimerox) (frames : list Z) (w : world)
    : list canvas * option (Chimerox * world) :=
  match frames with
  | [] => ([], Some (self, w))
  | frame :: rest =>
      match draw_frame self frame w with
      | None => ([], None)
      | Some ((cv, self'), w') =>
          let (written, final) := frame_loop self' rest w' in
          (cv :: written, final)
      end
  end.

Definition generate (self : Chimerox) (w : world)
    : list canvas * option (Chimerox * world) :=
  frame_loop self (range (total_frames self)) w.

(** A run: construction from the configuration, then [generate].  The
    frames reaching the sink, and whether the run completed. *)
Definition run (c : config) (w : world) : list canvas * bool :=
  match Chimerox_init c w with
  | None => ([], false)
  | Some (self, w') =>
      let (written, final) := generate self w' in
      (written, match final with Some _ => true | None => false end)
  end.

End Sequencer.

(* ================================================================== *)
(** * An executable instance of the library interface *)
(* ================================================================== *)

(** A small, fully computable [PyLib]: a 64-bit congruential stream, short
    Taylor polynomials for the circular functions, the conversion of
    [colorsys], single-precision arithmetic for the maps, discs and thick
    segments by squared distance, and nearest-neighbour sampling.  It is
    used to run the model on concrete inputs. *)
Module ExampleLib.

Definition step (s : Z) : Z :=
  (s * 6364136223846793005 + 1442695040888963407) mod 2 ^ 64.

Definition draw (s : Z) : float * Z :=
  let s' := step s in
  ((of_int (s' / 2 ^ 11) / of_int (2 ^ 53))%py, s').

Definition sin (x : float) : float :=
  (x - x * x * x / 6 + x * x * x * x * x / 120)%py.

Definition cos (x : float) : float :=
  (1 - x * x / 2 + x * x * x * x / 24)%py.

Definition atan2 (y x : float) : float :=
  (y / (fabs x + fabs y + 1))%py.

Definition hsv (h s v : float) : float * float * float :=
  if SFeqb s 0%py then (v, v, v)
  else
    let i := match py_int (h * 6)%py with Some i => i | None => 0 end in
    let f := (h * 6 - of_int i)%py in
    let p := (v * (1 - s))%py in
    let q := (v * (1 - s * f))%py in
    let t := (v * (1 - s * (1 - f)))%py in
    match i mod 6 with
    | 0 => (v, t, p)
    | 1 => (q, v, p)
    | 2 => (p, v, t)
    | 3 => (p, q, v)
    | 4 => (t, p, v)
    | _ => (v, p, q)
    end.

Definition single (x : float) : float :=
  match x with
  | S754_finite s m e =>
      binary_normalize 24 128 (if s then Zneg m else Zpos m) e s
  | _ => x
  end.

Definition clip (v : float) (lo hi : Z) : float :=
  if float_lt_int v lo then single (of_int lo)
  else if float_gt_int v hi then single (of_int hi)
  else v.

Definition disc (center : Z * Z) (radius thickness : Z) (xy : Z * Z) : bool :=
  let d := (fst xy - fst center) ^ 2 + (snd xy - snd center) ^ 2 in
  if thickness <? 0 then d <=? radius ^ 2
  else ((radius - thickness) ^ 2 <=? d) && (d <=? (radius + thickness) ^ 2).

Definition segment (p q : Z * Z) (thickness : Z) (xy : Z * Z) : bool :=
  let '(x1, y1) := p in
  let '(x2, y2) := q in
  let '(x, y) := xy in
  (Z.min x1 x2 - thickness <=? x) && (x <=? Z.max x1 x2 + thickness)
  && (Z.min y1 y2 - thickness <=? y) && (y <=? Z.max y1 y2 + thickness)
  && (4 * ((x2 - x1) * (y - y1) - (y2 - y1) * (x - x1)) ^ 2
      <=? thickness ^ 2 * ((x2 - x1) ^ 2 + (y2 - y1) ^ 2 + 1)).

Definition sample (cv : canvas) (mx my : float) : pixel :=
  nth (Z.to_nat (round_half_even mx))
      (nth (Z.to_nat (round_half_even my)) cv []) (0, 0, 0).

Definition lib : PyLib := {|
  rng := Z;
  random_seed := Z.abs;
  random_random := draw;
  nprng := Z;
  np_random_seed := fun n => n;
  libm_sin := sin;
  libm_cos := cos;
  math_atan2 := atan2;
  hsv_to_rgb := hsv;
  f32 := float;
  f32_of_int := fun n => single (of_int n);
  f32_iadd := fun v d => SFadd 24 128 v (single d);
  f32_clip := clip;
  circle_covers := disc;
  line_covers := segment;
  remap_sample := sample |}.

End ExampleLib.

(* ================================================================== *)
(** * Properties *)
(* ================================================================== *)

Section MonadFacts.
Context {L : PyLib}.

Lemma bind_Some {A B} (m : M A) (k : A -> M B) w r :
  bind m k w = Some r ->
  exists a w', m w = Some (a, w') /\ k a w' = Some r.
Proof.
  unfold bind. destruct (m w) as [[a w']|]; [|discriminate].
  intros H. exists a, w'. split; [reflexivity|exact H].
Qed.

Lemma bind_eq {A B} (m : M A) (k : A -> M B) w a w' :
  m w = Some (a, w') -> bind m k w = k a w'.
Proof. unfold bind. intros ->. reflexivity. Qed.

Lemma lift_Some {A} (o : option A) w r :
  lift o w = Some r -> exists a, o = Some a /\ r = (a, w).
Proof.
  unfold lift. destruct o as [a|]; [|discriminate].
  intros H. inversion H. exists a. split; reflexivity.
Qed.

Lemma obind_Some {A B} (o : option A) (k : A -> option B) r :
  obind o k = Some r -> exists a, o = Some a /\ k a = Some r.
Proof.
  destruct o as [a|]; simpl; [|discriminate].
  intros H. exists a. split; [reflexivity|exact H].
Qed.

Lemma ret_Some {A} (a : A) w r : ret a w = Some r -> r = (a, w).
Proof. unfold ret. intros H. inversion H. reflexivity. Qed.

End MonadFacts.

(** Inversion of a successful monadic computation in a hypothesis. *)
Ltac inv_M H :=
  repeat match type of H with
  | bind _ _ _ = Some _ =>
      let a := fresh "a" in let w := fresh "w" in
      let H1 := fresh "Hm" in
      apply bind_Some in H; destruct H as (a & w & H1 & H)
  | obind _ _ = Some _ =>
      let a := fresh "a" in let H1 := fresh "Ho" in
      apply obind_Some in H; destruct H as (a & H1 & H)
  | ret _ _ = Some _ => apply ret_Some in H
  | (let '(_, _) := ?p in _) _ = Some _ => destruct p
  | (let '(_, _) := ?p in _) = Some _ => destruct p
  end.

(* ------------------------------------------------------------------ *)
(** ** Determinism of a run *)
(* ------------------------------------------------------------------ *)

Section Determinism.
Context {L : PyLib}.

(** The streams as the constructor leaves them after its two seeding
    calls, whatever they were before. *)
Definition seeded (c : config) : world :=
  {| py_random := random_seed (iota c);
     np_random := np_random_seed (iota c mod 2 ^ 32) |}.

Lemma Chimerox_init_seeded (c : config) (w : world) :
  Chimerox_init c w = Chimerox_init c (seeded c).
Proof. reflexivity. Qed.

Lemma run_seeded (c : config) (w : world) : run c w = run c (seeded c).
Proof. unfold run. rewrite (Chimerox_init_seeded c w). reflexivity. Qed.

(** The frame a configuration produces at an index. *)
Definition frame_of (c : config) (k : nat) : option canvas :=
  nth_error (fst (run c (seeded c))) k.

(** C1: two runs of one configuration write the same frames, whatever the
    state of the global streams each run starts from; the frame at an index
    is a function of the configuration and the index. *)
Theorem run_deterministic :
  (forall (c : config) (w1 w2 : world), run c w1 = run c w2) /\
  (forall (c : config) (w : world) (k : nat),
      nth_error (fst (run c w)) k = frame_of c k).
Proof.
  split.
  - intros c w1 w2. rewrite (run_seeded c w1), (run_seeded c w2). reflexivity.
  - intros c w k. unfold frame_of. rewrite (run_seeded c w). reflexivity.
Qed.

End Determinism.

(* ------------------------------------------------------------------ *)
(** ** Particle initialisation *)
(* ------------------------------------------------------------------ *)

Section ParticleInit.
Context {L : PyLib}.

(** The first [n] values a stream yields, and the stream after them. *)
Fixpoint draws (n : nat) (s : rng) : list float :=
  match n with
  | O => []
  | S n' => fst (random_random s) :: draws n' (snd (random_random s))
  end.

Fixpoint advance (n : nat) (s : rng) : rng :=
  match n with
  | O => s
  | S n' => advance n' (snd (random_random s))
  end.

(** The stream particle [i] is initialised from. *)
Definition particle_stream (c : config) (i : Z) : rng :=
  random_seed ((iota c + i * omicron c) mod 10000).

(** Particle [i] as a function of the configuration and of [i] alone: the
    nine values drawn after the re-seeding go, in this order, to x, y, vx,
    vy, size, life, orbit_radius, orbit_speed and color_offset. *)
Definition particle_at (c : config) (i : Z) : Particle.t :=
  let u k := nth k (draws 9 (particle_stream c i)) S754_nan in
  {| Particle.x := (of_int 0 + of_int (width c - 0) * u 0%nat)%py;
     Particle.y := (of_int 0 + of_int (height c - 0) * u 1%nat)%py;
     Particle.vx := ((of_int (-4) + of_int (4 - -4) * u 2%nat) * entropy c)%py;
     Particle.vy := ((of_int (-4) + of_int (4 - -4) * u 3%nat) * entropy c)%py;
     Particle.size := (of_int 2 + of_int (12 - 2) * u 4%nat)%py;
     Particle.age := 0;
     Particle.life := (of_int 80 + of_int (300 - 80) * u 5%nat)%py;
     Particle.orbit_radius := (of_int 20 + of_int (200 - 20) * u 6%nat)%py;
     Particle.orbit_speed :=
       ((0.02 + (0.08 - 0.02) * u 7%nat) * resonance c)%py;
     Particle.color_offset := (of_int 0 + of_int (1 - 0) * u 8%nat)%py |}.

Lemma init_particle_eq (c : config) (i : Z) (w : world) :
  init_particle c i w =
  Some (particle_at c i,
        {| py_random := advance 9 (particle_stream c i);
           np_random := np_random w |}).
Proof. reflexivity. Qed.

(** The streams after the loop of [_init_particles] over the indices [l]. *)
Definition after_particles (c : config) (l : list Z) (w : world) : world :=
  fold_left (fun w i => {| py_random := advance 9 (particle_stream c i);
                           np_random := np_random w |}) l w.

Lemma mapM_init_particle (c : config) (l : list Z) (w : world) :
  mapM (init_particle c) l w =
  Some (map (particle_at c) l, after_particles c l w).
Proof.
  revert w. induction l as [|i l IH]; intros w.
  - reflexivity.
  - cbn [mapM map after_particles fold_left].
    erewrite bind_eq by apply init_particle_eq.
    erewrite bind_eq by apply IH. reflexivity.
Qed.

Lemma init_particles_eq (c : config) (n : Z) (w : world) :
  init_particles c n w =
  Some (map (particle_at c) (range n), after_particles c (range n) w).
Proof. apply mapM_init_particle. Qed.

Lemma nth_error_range (n i : Z) :
  0 <= i < n -> nth_error (range n) (Z.to_nat i) = Some i.
Proof.
  intros Hi. unfold range.
  rewrite nth_error_map, nth_error_seq.
  destruct (Nat.ltb_spec (Z.to_nat i) (Z.to_nat n)) as [_|Hge]; [|lia].
  cbn. rewrite Z2Nat.id by lia. reflexivity.
Qed.

Lemma length_range (n : Z) : length (range n) = Z.to_nat n.
Proof. unfold range. rewrite length_map, length_seq. reflexivity. Qed.

(** C2: whatever the streams hold and however many particles are built,
    particle [i] is re-seeded with [(iota + i * omicron) mod 10000] and its
    fields are the next nine draws in the fixed order, so that it is
    [particle_at c i], a function of the configuration and of [i]. *)
Theorem init_particles_pure (c : config) (n i : Z) (w : world) :
  0 <= i < n ->
  exists ps w',
    init_particles c n w = Some (ps, w') /\
    length ps = Z.to_nat n /\
    nth_error ps (Z.to_nat i) = Some (particle_at c i).
Proof.
  intros Hi. eexists. eexists. split; [apply init_particles_eq|]. split.
  - rewrite length_map. apply length_range.
  - rewrite nth_error_map, (nth_error_range n i Hi). reflexivity.
Qed.

End ParticleInit.

(* ------------------------------------------------------------------ *)
(** ** Facts about binary64 arithmetic *)
(* ------------------------------------------------------------------ *)

(** Not below zero: a zero of either sign, a positive number, the positive
    infinity, or NaN. *)
Definition not_negative (x : float) : bool :=
  match x with
  | S754_finite true _ _ | S754_infinity true => false
  | _ => true
  end.

Lemma not_negative_round_aux mx ex lx :
  not_negative (binary_round_aux 53 1024 false mx ex lx) = true.
Proof.
  unfold binary_round_aux.
  destruct (shr_fexp 53 1024 mx ex lx) as [mrs' e'].
  destruct (shr_fexp 53 1024 _ e' loc_Exact) as [mrs'' e''].
  destruct (shr_m mrs''); [reflexivity| |reflexivity].
  destruct (Z.leb e'' (1024 - 53)); reflexivity.
Qed.

Lemma not_negative_round m e :
  not_negative (binary_round 53 1024 false m e) = true.
Proof.
  unfold binary_round.
  destruct (shl_align _ _ _) as [mz ez]. apply not_negative_round_aux.
Qed.

Lemma not_negative_of_int n : 0 <= n -> not_negative (of_int n) = true.
Proof.
  intros Hn. unfold of_int, binary_normalize.
  destruct n as [|p|p]; [reflexivity|apply not_negative_round|lia].
Qed.

Lemma not_negative_fmul x y :
  not_negative x = true -> not_negative y = true ->
  not_negative (x * y)%py = true.
Proof.
  intros Hx Hy. unfold fmul, SFmul.
  destruct x as [sx|sx| |sx mx ex], y as [sy|sy| |sy my ey];
    try reflexivity; try discriminate;
    try (destruct sx; try discriminate); try (destruct sy; try discriminate);
    try reflexivity; try apply not_negative_round_aux.
Qed.

Lemma not_negative_fadd x y :
  not_negative x = true -> not_negative y = true ->
  not_negative (x + y)%py = true.
Proof.
  intros Hx Hy. unfold fadd, SFadd.
  destruct x as [sx|sx| |sx mx ex], y as [sy|sy| |sy my ey];
    try reflexivity; try discriminate;
    try (destruct sx; try discriminate); try (destruct sy; try discriminate);
    try reflexivity; try assumption.
  simpl. apply not_negative_round.
Qed.

Lemma not_negative_of_fle x : fle 0 x = true -> not_negative x = true.
Proof.
  destruct x as [s|s| |s m e]; try reflexivity; destruct s; try reflexivity;
    intros H; vm_compute in H; discriminate.
Qed.

(** Truncation and floor agree on what is not negative. *)
Lemma py_int_floor x : not_negative x = true -> py_int x = py_floor x.
Proof.
  destruct x as [s|s| |s m e]; try reflexivity.
  destruct s; [discriminate|reflexivity].
Qed.






(* ------------------------------------------------------------------ *)
(** ** What the constructor derives from the configuration *)
(* ------------------------------------------------------------------ *)

Section Constructor.
Context {L : PyLib}.

(** The value [Chimerox.__init__] assigns to [num_particles]. *)
Definition particle_count (c : config) : option Z :=
  py_int (of_int (threshold c) * 0.15 * (0.3 + entropy c * 0.7))%py.

(** The attributes of a constructed object that the properties below rely
    on, read off the constructor. *)
Lemma Chimerox_init_attrs (c : config) (w w' : world) (self : Chimerox) :
  Chimerox_init c w = Some (self, w') ->
  args self = c /\
  total_frames self = duration c * fps c /\
  particle_count c = Some (num_particles self) /\
  particles self = map (particle_at c) (range (num_particles self)) /\
  distortion_strength self = (entropy c * resonance c * 0.3)%py /\
  distortion_speed self = (0.02 + fabs (phase c) * 0.03)%py /\
  exists w1,
    init_distortion_centers c (distortion_strength self) (distortion_speed self) w1
    = Some (distortion_centers self, w').
Proof.
  unfold Chimerox_init. intros H. inv_M H.
  apply lift_Some in Hm1. destruct Hm1 as (n & Hn & E1). inversion E1; subst.
  rewrite init_particles_eq in Hm2. inversion Hm2; subst.
  inversion H; subst. cbn.
  repeat split; try reflexivity; try assumption.
  eexists. eassumption.
Qed.

End Constructor.

Section ConstructorTotal.
Context {L : PyLib}.

Definition is_some {A} (o : option A) : bool :=
  match o with Some _ => true | None => false end.

(** The conversions [int(...)] of the constructor all succeed. *)
Definition init_defined (c : config) : bool :=
  is_some (particle_count c)
  && is_some (py_int (25 + of_int (threshold c) * 0.08)%py)
  && is_some (py_int (8 + (of_int (threshold c) / 100) * entropy c)%py)
  && is_some (py_int (of_int (omicron c mod 5) * entropy c)%py)
  && is_some (py_int (80 + entropy c * 120)%py)
  && is_some (py_int (2 + entropy c * 3)%py)
  && (flt (entropy c * resonance c * 0.3)%py 0.1
      || is_some (py_int (1 + entropy c * 2)%py)).

Lemma is_some_Some {A} (o : option A) : is_some o = true -> exists a, o = Some a.
Proof. destruct o as [a|]; [exists a; reflexivity|discriminate]. Qed.

Lemma mapM_total {A B} (f : A -> M B) :
  (forall a w, exists b w', f a w = Some (b, w')) ->
  forall l w, exists bs w', mapM f l w = Some (bs, w').
Proof.
  intros Hf. induction l as [|a l IH]; intros w.
  - exists [], w. reflexivity.
  - destruct (Hf a w) as (b & w1 & E1). destruct (IH w1) as (bs & w2 & E2).
    exists (b :: bs), w2. cbn [mapM].
    rewrite (bind_eq _ _ _ _ _ E1), (bind_eq _ _ _ _ _ E2). reflexivity.
Qed.

Lemma init_bokeh_total (c : config) (bh : float) (w : world) :
  is_some (py_int (25 + of_int (threshold c) * 0.08)%py) = true ->
  exists bs w', init_bokeh c bh w = Some (bs, w').
Proof.
  intros H. apply is_some_Some in H. destruct H as [n Hn].
  unfold init_bokeh. rewrite Hn.
  destruct (mapM_total (fun _ : Z => init_bokeh_particle c bh)
              (fun _ w => ex_intro _ _ (ex_intro _ _ eq_refl)) (range n) w)
    as (bs & w' & E).
  exists bs, w'. exact E.
Qed.

Lemma init_vortex_centers_total (c : config) (w : world) :
  is_some (py_int (2 + entropy c * 3)%py) = true ->
  exists vs w', init_vortex_centers c w = Some (vs, w').
Proof.
  intros H. apply is_some_Some in H. destruct H as [n Hn].
  unfold init_vortex_centers. rewrite Hn.
  destruct (mapM_total (fun _ : Z => init_vortex_center c)
              (fun _ w => ex_intro _ _ (ex_intro _ _ eq_refl)) (range n) w)
    as (vs & w' & E).
  exists vs, w'. exact E.
Qed.

Lemma init_distortion_centers_total (c : config) (ds dv : float) (w : world) :
  flt ds 0.1 || is_some (py_int (1 + entropy c * 2)%py) = true ->
  exists cs w', init_distortion_centers c ds dv w = Some (cs, w').
Proof.
  intros H. unfold init_distortion_centers.
  destruct (flt ds 0.1).
  - exists [], w. reflexivity.
  - rewrite orb_false_l in H. apply is_some_Some in H.
    destruct H as [n Hn]. rewrite Hn.
    destruct (mapM_total (fun _ : Z => init_distortion_center c ds dv)
                (fun _ w => ex_intro _ _ (ex_intro _ _ eq_refl)) (range n) w)
      as (cs & w' & E).
    exists cs, w'. exact E.
Qed.

Lemma bind_total {A B} (m : M A) (k : A -> M B) (w : world) :
  (exists a w1, m w = Some (a, w1)) ->
  (forall a w1, exists r, k a w1 = Some r) ->
  exists r, bind m k w = Some r.
Proof.
  intros (a & w1 & E) Hk. rewrite (bind_eq _ _ _ _ _ E). apply Hk.
Qed.

(** The constructor returns whenever its integer conversions do. *)
Lemma Chimerox_init_total (c : config) (w : world) :
  init_defined c = true -> exists self w', Chimerox_init c w = Some (self, w').
Proof.
  unfold init_defined, particle_count. intros H.
  repeat match goal with
         | H : _ && _ = true |- _ => apply andb_prop in H; destruct H
         end.
  enough (exists r, Chimerox_init c w = Some r) as [[self w'] E]
    by (exists self, w'; exact E).
  unfold Chimerox_init.
  apply bind_total; [eexists; eexists; reflexivity|intros _ w1; cbv beta].
  apply bind_total; [eexists; eexists; reflexivity|intros _ w2; cbv beta].
  repeat match goal with
         | H : is_some ?o = true |- context [lift ?o] =>
             apply is_some_Some in H; destruct H as [? H]; rewrite H
         end.
  apply bind_total; [eexists; eexists; reflexivity|intros n w3; cbv beta].
  apply bind_total;
    [eexists; eexists; apply init_particles_eq|intros ps w4; cbv beta].
  apply bind_total; [apply init_bokeh_total; assumption|intros bs w5; cbv beta].
  apply bind_total; [eexists; eexists; reflexivity|intros wc w6; cbv beta].
  apply bind_total; [eexists; eexists; reflexivity|intros wf w7; cbv beta].
  apply bind_total; [eexists; eexists; reflexivity|intros wo w8; cbv beta].
  apply bind_total;
    [apply init_vortex_centers_total; assumption|intros vs w9; cbv beta].
  apply bind_total;
    [apply init_distortion_centers_total; assumption|intros cs w10; cbv beta].
  eexists. reflexivity.
Qed.

End ConstructorTotal.

(* ------------------------------------------------------------------ *)
(** ** The particle count *)
(* ------------------------------------------------------------------ *)

Section ParticleCount.
Context {L : PyLib}.

Lemma particle_count_not_negative (c : config) :
  0 <= threshold c -> fle 0 (entropy c) = true ->
  not_negative (of_int (threshold c) * 0.15 * (0.3 + entropy c * 0.7))%py = true.
Proof.
  intros Ht He.
  apply not_negative_fmul.
  - apply not_negative_fmul; [apply not_negative_of_int; exact Ht|reflexivity].
  - apply not_negative_fadd; [reflexivity|].
    apply not_negative_fmul; [apply not_negative_of_fle; exact He|reflexivity].
Qed.

(** [int] of a negative number is the negated floor of its opposite. *)
Lemma py_int_negative x :
  not_negative x = false ->
  py_int x = option_map Z.opp (py_floor (SFopp x)).
Proof.
  destruct x as [s|s| |s m e]; try destruct s; try discriminate;
    intros _; reflexivity.
Qed.

(** C3: the particle count is [int(density * 0.15 * (0.3 + entropy * 0.7))],
    evaluated as the source does in binary64: the product cut toward zero.
    It is the floor of the product when that is not negative, as it is
    for a density and an entropy that are not negative, and the negated
    floor of the opposite otherwise; it is the [num_particles] of every
    object built from the configuration and the number of its particles;
    and density 500 with entropy 0.5 gives 48. *)
Theorem particle_count_floor (c : config) :
  let product := (of_int (threshold c) * 0.15 * (0.3 + entropy c * 0.7))%py in
  (not_negative product = true -> particle_count c = py_floor product) /\
  (not_negative product = false ->
   particle_count c = option_map Z.opp (py_floor (SFopp product))) /\
  (0 <= threshold c -> fle 0 (entropy c) = true ->
   particle_count c = py_floor product) /\
  (forall (w w' : world) (self : Chimerox),
      Chimerox_init c w = Some (self, w') ->
      particle_count c = Some (num_particles self) /\
      length (particles self) = Z.to_nat (num_particles self)) /\
  (threshold c = 500 -> entropy c = 0.5%py -> particle_count c = Some 48).
Proof.
  cbv zeta. split; [|split; [|split; [|split]]].
  - intros H. apply py_int_floor, H.
  - intros H. apply py_int_negative, H.
  - intros Ht He. apply py_int_floor, particle_count_not_negative; assumption.
  - intros w w' self H.
    destruct (Chimerox_init_attrs c w w' self H) as (_ & _ & Hn & Hp & _).
    split; [exact Hn|]. rewrite Hp, length_map. apply length_range.
  - intros E1 E2. unfold particle_count. rewrite E1, E2. reflexivity.
Qed.

End ParticleCount.

(* ------------------------------------------------------------------ *)
(** ** Every layer keeps the shape of the raster *)
(* ------------------------------------------------------------------ *)

(** Inversion of a successful [option] computation in a hypothesis. *)
Ltac inv_O H :=
  repeat match type of H with
  | obind _ _ = Some _ =>
      let a := fresh "a" in let H1 := fresh "Ho" in
      apply obind_Some in H; destruct H as (a & H1 & H)
  | (if ?b then _ else _) = Some _ => destruct b
  | (let '(_, _) := ?p in _) = Some _ => destruct p
  | Some _ = Some _ => inversion H; subst; clear H
  end.

Section Shapes.
Context {L : PyLib}.

Lemma length_imap_from {A B} (f : Z -> A -> B) (l : list A) (i : Z) :
  length (imap_from i f l) = length l.
Proof.
  revert i. induction l as [|a l IH]; intros i; cbn; [|rewrite IH]; reflexivity.
Qed.

Lemma Forall_imap_from {A B} (P : A -> Prop) (Q : B -> Prop)
    (f : Z -> A -> B) (l : list A) (i : Z) :
  (forall j a, P a -> Q (f j a)) -> Forall P l -> Forall Q (imap_from i f l).
Proof.
  intros Hf Hl. revert i. induction Hl as [|a l Ha Hl IH]; intros i; cbn.
  - constructor.
  - constructor; [apply Hf, Ha|apply IH].
Qed.

Lemma paint_shape {A B} (f : Z * Z -> A -> B) (h w : Z) (cv : list (list A)) :
  has_shape h w cv -> has_shape h w (paint f cv).
Proof.
  intros [Hh Hw]. unfold paint. split.
  - rewrite length_imap_from. exact Hh.
  - apply Forall_imap_from with (P := fun row => Z.of_nat (length row) = w);
      [|exact Hw].
    intros j row Hrow. rewrite length_imap_from. exact Hrow.
Qed.

Lemma cv_circle_shape h w cv center radius color thickness :
  has_shape h w cv -> has_shape h w (cv_circle cv center radius color thickness).
Proof. apply paint_shape. Qed.

Lemma cv_line_shape h w cv pt1 pt2 color thickness :
  has_shape h w cv -> has_shape h w (cv_line cv pt1 pt2 color thickness).
Proof. apply paint_shape. Qed.

Lemma np_zeros_shape h w cv : np_zeros h w = Some cv -> has_shape h w cv.
Proof.
  unfold np_zeros. destruct (Z.ltb_spec h 0); [discriminate|].
  destruct (Z.ltb_spec w 0); [discriminate|]. cbn.
  intros E. inversion E; subst. split.
  - rewrite repeat_length. lia.
  - apply Forall_forall. intros row Hin. apply repeat_spec in Hin. subst.
    rewrite repeat_length. lia.
Qed.

Lemma fill_shape h w cv color : has_shape h w cv -> has_shape h w (fill cv color).
Proof.
  intros [Hh Hw]. unfold fill. destruct color as [[a b] c]. split.
  - rewrite length_map. exact Hh.
  - apply Forall_map. eapply Forall_impl; [|exact Hw].
    intros row Hrow. cbn. rewrite length_map. exact Hrow.
Qed.

(** An invariant of the accumulator of a loop is an invariant of the
    loop. *)
Lemma ofold_invariant {A B} (P : B -> Prop) (f : B -> A -> option B) :
  (forall b a b', P b -> f b a = Some b' -> P b') ->
  forall l b b', P b -> ofold f l b = Some b' -> P b'.
Proof.
  intros Hf. induction l as [|a l IH]; intros b b' Hb H; cbn in H.
  - inversion H; subst. exact Hb.
  - apply obind_Some in H. destruct H as (b1 & H1 & H).
    eapply IH; [eapply Hf; eassumption|exact H].
Qed.

Lemma foldM_invariant {A B} (P : B -> Prop) (f : B -> A -> M B) :
  (forall b a b' w w', P b -> f b a w = Some (b', w') -> P b') ->
  forall l b b' w w', P b -> foldM f l b w = Some (b', w') -> P b'.
Proof.
  intros Hf. induction l as [|a l IH]; intros b b' w w' Hb H; cbn in H.
  - apply ret_Some in H. inversion H; subst. exact Hb.
  - apply bind_Some in H. destruct H as (b1 & w1 & H1 & H).
    eapply IH; [eapply Hf; eassumption|exact H].
Qed.

End Shapes.

(** What the four drawing layers keep: any property of the raster that
    [cv2.circle] and [cv2.line] keep. *)
Section LayerInvariant.
Context {L : PyLib}.
Variable P : canvas -> Prop.
Hypothesis P_circle : forall cv center radius color thickness,
  P cv -> P (cv_circle cv center radius color thickness).
Hypothesis P_line : forall cv pt1 pt2 color thickness,
  P cv -> P (cv_line cv pt1 pt2 color thickness).

Lemma draw_bokeh_gradient_keeps x y size color cv cv' :
  P cv -> draw_bokeh_gradient x y size color cv = Some cv' -> P cv'.
Proof.
  unfold draw_bokeh_gradient. apply ofold_invariant.
  intros b a b' Hb H. inv_O H. apply P_circle, Hb.
Qed.

Lemma draw_bokeh_keeps self cv frame cv' bs :
  P cv -> draw_bokeh self cv frame = Some (cv', bs) -> P cv'.
Proof.
  unfold draw_bokeh. intros Hcv H.
  apply (ofold_invariant (fun acc => P (fst acc)) _) in H;
    [exact H| |exact Hcv].
  intros [b done] a [b' done'] Hb Hf. cbn in Hb |- *.
  inv_O Hf. unfold draw_bokeh_particle in Ho. inv_O Ho.
  - eapply draw_bokeh_gradient_keeps; eassumption.
  - exact Hb.
Qed.

Lemma draw_waves_keeps self cv frame cv' :
  P cv -> draw_waves self cv frame = Some cv' -> P cv'.
Proof.
  unfold draw_waves. apply ofold_invariant.
  intros b a b' Hb H. unfold draw_wave in H. inv_O H.
  unfold draw_wave_segments in H. revert H. apply ofold_invariant; [|exact Hb].
  intros b1 [[x1 y1] [x2 y2]] b2 Hb1 H. inv_O H.
  - apply P_line, P_line, Hb1.
  - exact Hb1.
Qed.

Lemma draw_vortex_field_keeps self cv frame cv' :
  P cv -> draw_vortex_field self cv frame = Some cv' -> P cv'.
Proof.
  unfold draw_vortex_field. intros Hcv H.
  destruct (flt (vortex_intensity self) 0.3);
    [inversion H; subst; exact Hcv|].
  revert H. apply ofold_invariant; [|exact Hcv].
  intros b a b' Hb H. unfold draw_vortex in H. inv_O H.
  revert H. apply ofold_invariant; [|exact Hb].
  intros b1 i b2 Hb1 H. unfold draw_spiral_point in H. inv_O H;
    repeat first [exact Hb1 | apply P_line | apply P_circle].
Qed.

Lemma draw_particle_keeps self particle frame cv cv' :
  P cv -> draw_particle self particle frame cv = Some cv' -> P cv'.
Proof.
  unfold draw_particle. intros Hcv H. inv_O H; try exact Hcv.
  unfold draw_trail in H. revert H. apply ofold_invariant.
  - intros b i b' Hb H. inv_O H; [apply P_circle, Hb|exact Hb].
  - inv_O Ho4; repeat apply P_circle; exact Hcv.
Qed.

Lemma draw_particles_keeps self frame cv cv' ps wd wd' :
  P cv -> draw_particles self frame cv wd = Some ((cv', ps), wd') -> P cv'.
Proof.
  unfold draw_particles. intros Hcv H.
  apply (foldM_invariant (fun acc => P (fst acc)) _) in H;
    [exact H| |exact Hcv].
  intros [b done] a [b' done'] w1 w2 Hb Hf. cbn in Hb |- *.
  inv_M Hf. apply lift_Some in Hm0. destruct Hm0 as (c1 & Hd & E).
  inversion E; subst. inversion Hf; subst.
  eapply draw_particle_keeps; eassumption.
Qed.

End LayerInvariant.


Section DistortionShapes.
Context {L : PyLib}.

Lemma length_update_nth {A} (n : nat) (f : A -> A) (l : list A) :
  length (update_nth n f l) = length l.
Proof.
  revert n. induction l as [|a l IH]; intros [|n]; cbn; try reflexivity.
  rewrite IH. reflexivity.
Qed.

Lemma Forall_update_nth {A} (P : A -> Prop) (n : nat) (f : A -> A) (l : list A) :
  (forall a, P a -> P (f a)) -> Forall P l -> Forall P (update_nth n f l).
Proof.
  intros Hf Hl. revert n. induction Hl as [|a l Ha Hl IH]; intros [|n]; cbn;
    constructor; auto.
Qed.

Lemma update2_shape {A} h w (m : list (list A)) row col f :
  has_shape h w m -> has_shape h w (update2 m row col f).
Proof.
  intros [Hh Hw]. unfold update2. split.
  - rewrite length_update_nth. exact Hh.
  - apply Forall_update_nth; [|exact Hw].
    intros r Hr. rewrite length_update_nth. exact Hr.
Qed.

(** Both maps have the given shape. *)
Definition maps_shape (h w : Z) (maps : list (list f32) * list (list f32)) : Prop :=
  has_shape h w (fst maps) /\ has_shape h w (snd maps).

Lemma fold_left_invariant {A B} (P : B -> Prop) (f : B -> A -> B) :
  (forall b a, P b -> P (f b a)) ->
  forall l b, P b -> P (fold_left f l b).
Proof.
  intros Hf. induction l as [|a l IH]; intros b Hb; cbn; [exact Hb|].
  apply IH, Hf, Hb.
Qed.

Lemma add_to_block_shape h w maps x y step height width ox oy :
  maps_shape h w maps ->
  maps_shape h w (add_to_block maps x y step height width ox oy).
Proof.
  unfold add_to_block. apply fold_left_invariant. intros m1 fy.
  apply fold_left_invariant. intros [mx my] fx [Hx Hy].
  split; apply update2_shape; assumption.
Qed.

Lemma identity_maps_shape h w :
  0 <= h -> 0 <= w -> maps_shape h w (identity_maps h w).
Proof.
  intros Hh Hw. unfold identity_maps, maps_shape, has_shape. cbn [fst snd].
  repeat split.
  - rewrite length_map, length_range. lia.
  - apply Forall_map, Forall_forall. intros y _.
    rewrite length_map, length_range. lia.
  - rewrite length_map, length_range. lia.
  - apply Forall_map, Forall_forall. intros y _.
    rewrite length_map, length_range. lia.
Qed.

Lemma distort_center_shape h w self t step height width maps center maps' :
  maps_shape h w maps ->
  distort_center self t step height width maps center = Some maps' ->
  maps_shape h w maps'.
Proof.
  unfold distort_center. intros Hm H. inv_O H. revert H.
  apply ofold_invariant; [|exact Hm].
  intros m1 y m2 Hm1. apply ofold_invariant; [|exact Hm1].
  intros m3 x m4 Hm3 H. unfold distort_sample in H. inv_O H.
  - apply add_to_block_shape, Hm3.
  - exact Hm3.
Qed.

Lemma shape_transfer {B} h w (cv : canvas) (m : list (list B)) :
  has_shape h w cv -> has_shape (fst (shape cv)) (snd (shape cv)) m ->
  has_shape h w m.
Proof.
  intros [Hh Hw] [Hh' Hw']. destruct cv as [|row cv]; cbn in *.
  - destruct m; [|discriminate]. split; [exact Hh|constructor].
  - inversion Hw; subst. split; [exact Hh'|].
    eapply Forall_impl; [|exact Hw']. cbn. intros r Hr. lia.
Qed.

Lemma shape_nonneg (cv : canvas) : 0 <= fst (shape cv) /\ 0 <= snd (shape cv).
Proof. unfold shape. cbn. lia. Qed.

Lemma displacement_maps_shape h w self cv frame map_x map_y :
  has_shape h w cv ->
  displacement_maps self cv frame = Some (map_x, map_y) ->
  has_shape h w map_x /\ has_shape h w map_y.
Proof.
  unfold displacement_maps. intros Hcv H.
  pose proof (shape_nonneg cv) as [Hh Hw].
  destruct (shape cv) as [height width] eqn:E. cbn [fst snd] in Hh, Hw.
  inv_O H.
  assert (Hm : maps_shape height width (l, l0)).
  { revert Ho0. apply ofold_invariant.
    - intros m1 ctr m2. apply distort_center_shape.
    - apply identity_maps_shape; assumption. }
  destruct Hm as [[Hx1 Hx2] [Hy1 Hy2]]. cbn [fst snd] in *.
  split; apply (shape_transfer h w cv); try exact Hcv; rewrite E; cbn [fst snd];
    (split; [rewrite length_map; assumption|]);
    apply Forall_map; (eapply Forall_impl; [|eassumption]);
    cbn; intros r Hr; rewrite length_map; exact Hr.
Qed.

Lemma length_map2 {A B C} (f : A -> B -> C) (l1 : list A) (l2 : list B) :
  length l1 = length l2 -> length (map2 f l1 l2) = length l1.
Proof.
  revert l2. induction l1 as [|a l1 IH]; intros [|b l2] E; cbn in *;
    try reflexivity; try discriminate.
  rewrite IH by congruence. reflexivity.
Qed.

Lemma map2_shape {A B C} (f : A -> B -> C) h w
    (m1 : list (list A)) (m2 : list (list B)) :
  has_shape h w m1 -> has_shape h w m2 -> has_shape h w (map2 (map2 f) m1 m2).
Proof.
  intros [H1 F1] [H2 F2]. split.
  - rewrite length_map2; [exact H1|lia].
  - assert (E : length m1 = length m2) by lia. clear H1 H2.
    revert m2 F2 E. induction m1 as [|r1 m1 IH]; intros [|r2 m2] F2 E;
      cbn in *; try constructor; try discriminate;
      inversion F1; inversion F2; subst.
    + rewrite length_map2 by lia. reflexivity.
    + apply IH; [assumption|assumption|congruence].
Qed.

Lemma apply_reality_distortion_shape h w self cv frame cv' :
  has_shape h w cv -> apply_reality_distortion self cv frame = Some cv' ->
  has_shape h w cv'.
Proof.
  unfold apply_reality_distortion. intros Hcv H. inv_O H; [exact Hcv|].
  destruct (displacement_maps_shape h w self cv frame _ _ Hcv Ho) as [Hx Hy].
  unfold cv_addWeighted, cv_remap.
  apply map2_shape; [exact Hcv|]. apply map2_shape; assumption.
Qed.

End DistortionShapes.

(* ------------------------------------------------------------------ *)
(** ** Frames are 8-bit rasters of the configured size *)
(* ------------------------------------------------------------------ *)

(** A channel value an 8-bit raster can hold, and a raster of [h] rows of
    [w] such pixels. *)
Definition u8 (v : Z) : Prop := 0 <= v <= 255.

Definition rgb8 (p : pixel) : Prop :=
  let '(a, b, c) := p in u8 a /\ u8 b /\ u8 c.

Definition raster (h w : Z) (cv : canvas) : Prop :=
  has_shape h w cv /\ Forall (Forall rgb8) cv.

Section Rasters.
Context {L : PyLib}.

Lemma u8_sat v : u8 (sat_u8 v).
Proof. unfold u8, sat_u8. lia. Qed.

Lemma u8_wrap v : u8 (wrap_u8 v).
Proof. unfold u8, wrap_u8. pose proof (Z.mod_pos_bound v 256). lia. Qed.

Lemma rgb8_sat p : rgb8 (sat_pixel p).
Proof. destruct p as [[a b] c]. cbn. repeat split; apply u8_sat. Qed.

Lemma paint_rgb8 (f : Z * Z -> pixel -> pixel) (cv : canvas) :
  (forall xy px, rgb8 px -> rgb8 (f xy px)) ->
  Forall (Forall rgb8) cv -> Forall (Forall rgb8) (paint f cv).
Proof.
  intros Hf. unfold paint. apply Forall_imap_from.
  intros y row. apply Forall_imap_from. intros x px. apply Hf.
Qed.

Lemma cv_circle_raster h w cv center radius color thickness :
  raster h w cv -> raster h w (cv_circle cv center radius color thickness).
Proof.
  intros [Hs Hv]. split; [apply cv_circle_shape, Hs|].
  apply paint_rgb8; [|exact Hv]. intros xy px Hpx.
  destruct (circle_covers center radius thickness xy); [apply rgb8_sat|exact Hpx].
Qed.

Lemma cv_line_raster h w cv pt1 pt2 color thickness :
  raster h w cv -> raster h w (cv_line cv pt1 pt2 color thickness).
Proof.
  intros [Hs Hv]. split; [apply cv_line_shape, Hs|].
  apply paint_rgb8; [|exact Hv]. intros xy px Hpx.
  destruct (line_covers pt1 pt2 thickness xy); [apply rgb8_sat|exact Hpx].
Qed.

Lemma fill_raster h w cv color : has_shape h w cv -> raster h w (fill cv color).
Proof.
  intros Hs. split; [apply fill_shape, Hs|].
  unfold fill. destruct color as [[a b] c].
  apply Forall_map, Forall_forall. intros row _.
  apply Forall_map, Forall_forall. intros px _.
  cbn. repeat split; apply u8_wrap.
Qed.

Lemma Forall_map2 {A B C} (Q : C -> Prop) (f : A -> B -> C) l1 l2 :
  (forall a b, Q (f a b)) -> Forall Q (map2 f l1 l2).
Proof.
  intros Hf. revert l2. induction l1 as [|a l1 IH]; intros [|b l2]; cbn;
    constructor; auto.
Qed.


Lemma cv_addWeighted_rgb8 src1 alpha src2 beta gamma :
  Forall (Forall rgb8) (cv_addWeighted src1 alpha src2 beta gamma).
Proof.
  unfold cv_addWeighted. apply Forall_map2. intros r1 r2.
  apply Forall_map2. intros [[p1 p2] p3] [[q1 q2] q3].
  cbn. unfold weighted_channel. repeat split; apply u8_sat.
Qed.

Lemma apply_reality_distortion_raster h w self cv frame cv' :
  raster h w cv -> apply_reality_distortion self cv frame = Some cv' ->
  raster h w cv'.
Proof.
  intros [Hs Hv] H. split.
  - eapply apply_reality_distortion_shape; eassumption.
  - unfold apply_reality_distortion in H. inv_O H; [exact Hv|].
    apply cv_addWeighted_rgb8.
Qed.

(** What [_draw_frame] changes of the object: the two mutable lists. *)
Definition same_attributes (self self' : Chimerox) : Prop :=
  exists bs ps, self' = set_particles (set_bokeh_particles self bs) ps.

Lemma composite_raster self frame w cv self' w' :
  composite self frame w = Some ((cv, self'), w') ->
  raster (height self) (width self) cv /\ same_attributes self self'.
Proof.
  unfold composite. intros H. inv_M H.
  apply lift_Some in Hm. destruct Hm as (cv0 & Hz & E0). inversion E0; subst.
  apply lift_Some in Hm0. destruct Hm0 as (bg & Hbg & E1). inversion E1; subst.
  apply lift_Some in Hm1. destruct Hm1 as (r1 & Hb & E2). inversion E2; subst.
  apply lift_Some in Hm2. destruct Hm2 as (r2 & Hw & E3). inversion E3; subst.
  apply lift_Some in Hm3. destruct Hm3 as (r3 & Hv & E4). inversion E4; subst.
  inversion H; subst. split; [|eexists; eexists; reflexivity].
  set (P := raster (height self) (width self)).
  assert (P0 : P (fill cv0 bg)) by (apply fill_raster, np_zeros_shape, Hz).
  pose proof (draw_bokeh_keeps P (cv_circle_raster _ _) _ _ _ _ _ P0 Hb) as P1.
  pose proof (draw_waves_keeps P (cv_line_raster _ _) _ _ _ _ P1 Hw) as P2.
  pose proof (draw_vortex_field_keeps P (cv_circle_raster _ _)
                (cv_line_raster _ _) _ _ _ _ P2 Hv) as P3.
  exact (draw_particles_keeps P (cv_circle_raster _ _) _ _ _ _ _ _ _ P3 Hm4).
Qed.

Lemma draw_frame_raster self frame w cv self' w' :
  draw_frame self frame w = Some ((cv, self'), w') ->
  raster (height self) (width self) cv /\ same_attributes self self'.
Proof.
  unfold draw_frame. intros H. inv_M H.
  apply lift_Some in Hm0. destruct Hm0 as (cv1 & Hd & E). inversion E; subst.
  inversion H; subst.
  destruct (composite_raster _ _ _ _ _ _ Hm) as [Hr Hs]. split; [|exact Hs].
  destruct Hs as (bs & ps & ->).
  eapply apply_reality_distortion_raster; eassumption.
Qed.

Lemma same_attributes_args self self' :
  same_attributes self self' -> args self' = args self.
Proof. intros (bs & ps & ->). reflexivity. Qed.

(** The frame loop writes at most one frame per index, all of them when it
    completes, each an 8-bit raster of the configured size. *)
Lemma frame_loop_frames (frames : list Z) :
  forall (self : Chimerox) (w : world),
    let r := frame_loop self frames w in
    (length (fst r) <= length frames)%nat /\
    (snd r <> None -> length (fst r) = length frames) /\
    Forall (raster (height self) (width self)) (fst r).
Proof.
  induction frames as [|frame rest IH]; intros self w; cbn.
  - repeat split; [lia|constructor].
  - destruct (draw_frame self frame w) as [[[cv self'] w']|] eqn:E; cbn.
    + destruct (draw_frame_raster _ _ _ _ _ _ E) as [Hr Hs].
      specialize (IH self' w'). cbn in IH.
      destruct (frame_loop self' rest w') as [written final]. cbn in *.
      destruct IH as (I1 & I2 & I3).
      rewrite (same_attributes_args _ _ Hs) in I3.
      repeat split; [lia|intros Hf; rewrite I2 by exact Hf; reflexivity|].
      constructor; assumption.
    + repeat split; [lia|intros Hf; congruence|constructor].
Qed.

End Rasters.

(* ------------------------------------------------------------------ *)
(** ** The end-to-end scenario *)
(* ------------------------------------------------------------------ *)

(** The configuration of the end-to-end scenario. *)
Definition scenario : config :=
  {| iota := 12345; omicron := 0; phase := 0%py; threshold := 500;
     resonance := 2%py; entropy := 0.5%py;
     width := 640; height := 480; duration := 1; fps := 24 |}.

Section Scenario.
Context {L : PyLib}.

Lemma fill_uniform (cv : canvas) (a b c : Z) :
  u8 a -> u8 b -> u8 c -> Forall (Forall (eq (a, b, c))) (fill cv (a, b, c)).
Proof.
  unfold u8. intros Ha Hb Hc. unfold fill, wrap_u8.
  apply Forall_map, Forall_forall. intros row _.
  apply Forall_map, Forall_forall. intros px _. cbn.
  rewrite !Z.mod_small by lia. reflexivity.
Qed.

(** The scenario builds an object with 24 frames to draw; a run writes
    one 640x480 8-bit raster per frame, 24 when it completes; and, [sin]
    mapping zero to zero, the tint of frame 0 is (20, 10, 6). *)
Lemma scenario_shape (w : world) :
  libm_sin (S754_zero false) = S754_zero false ->
  (exists self w1 cv0,
      Chimerox_init scenario w = Some (self, w1) /\
      total_frames self = 24 /\
      background self 0 = Some (20, 10, 6) /\
      np_zeros (height self) (width self) = Some cv0 /\
      has_shape 480 640 cv0 /\
      Forall (Forall (eq (20, 10, 6))) (fill cv0 (20, 10, 6))) /\
  (let (written, completed) := run scenario w in
   (length written <= 24)%nat /\
   (completed = true -> length written = 24%nat) /\
   Forall (raster 480 640) written).
Proof.
  intros Hsin.
  destruct (Chimerox_init_total scenario w eq_refl) as (self & w1 & Hinit).
  destruct (Chimerox_init_attrs _ _ _ _ Hinit) as (Hargs & Htot & _).
  split.
  - exists self, w1. eexists. split; [exact Hinit|]. split; [exact Htot|].
    split; [|split; [|split]].
    + unfold background. rewrite Hargs. cbn [phase scenario].
      change (of_int 0 * 0.01 + 0)%py with (S754_zero false).
      cbn [math_sin obind]. rewrite Hsin. reflexivity.
    + rewrite Hargs. reflexivity.
    + apply (np_zeros_shape 480 640). reflexivity.
    + apply fill_uniform; unfold u8; lia.
  - unfold run. rewrite Hinit. unfold generate. rewrite Htot.
    pose proof (frame_loop_frames (range (duration scenario * fps scenario))
                  self w1) as H.
    cbv zeta in H.
    destruct (frame_loop self (range (duration scenario * fps scenario)) w1)
      as [written final].
    cbn [fst snd] in H. destruct H as (H1 & H2 & H3).
    rewrite Hargs in H3. rewrite length_range in H1, H2.
    repeat split.
    + exact H1.
    + intros Hc. apply H2. destruct final; [discriminate|discriminate Hc].
    + exact H3.
Qed.

End Scenario.

(* ------------------------------------------------------------------ *)
(** ** The distortion pass: skip and blend *)
(* ------------------------------------------------------------------ *)

Section Blend.
Context {L : PyLib}.

Lemma In_range (n v : Z) : 0 <= v < n -> In v (range n).
Proof.
  intros Hv. unfold range. apply in_map_iff. exists (Z.to_nat v).
  split; [lia|]. apply in_seq. lia.
Qed.










(** C6: below the threshold 0.05 the distortion pass returns its argument,
    whatever the displacement field would have been, and the frame
    [_draw_frame] returns is the composite of the layers. *)
Theorem distortion_skipped (self : Chimerox) (frame : Z) (w : world) :
  flt (distortion_strength self) 0.05 = true ->
  (forall cv : canvas, apply_reality_distortion self cv frame = Some cv) /\
  draw_frame self frame w = composite self frame w.
Proof.
  intros Hs. split.
  - intros cv. unfold apply_reality_distortion. rewrite Hs. reflexivity.
  - unfold draw_frame, bind.
    destruct (composite self frame w) as [[[cv self'] w']|] eqn:E;
      [|reflexivity].
    destruct (composite_raster _ _ _ _ _ _ E) as [_ (bs & ps & ->)].
    unfold apply_reality_distortion.
    change (distortion_strength (set_particles (set_bokeh_particles self bs) ps))
      with (distortion_strength self).
    rewrite Hs. reflexivity.
Qed.


End Blend.

(* ------------------------------------------------------------------ *)
(** ** The distortion strength is derived from the configuration *)
(* ------------------------------------------------------------------ *)

Section DistortionStrength.
Context {L : PyLib}.

Lemma mapM_Forall {A B} (P : B -> Prop) (f : A -> M B) :
  (forall a w b w', f a w = Some (b, w') -> P b) ->
  forall l w bs w', mapM f l w = Some (bs, w') ->
                    Forall P bs /\ length bs = length l.
Proof.
  intros Hf. induction l as [|a l IH]; intros w bs w' H; cbn in H.
  - apply ret_Some in H. inversion H; subst. split; [constructor|reflexivity].
  - inv_M H. inversion H; subst.
    destruct (IH _ _ _ Hm0) as [IH1 IH2].
    split; [constructor; [eapply Hf; eassumption|exact IH1]|].
    cbn. rewrite IH2. reflexivity.
Qed.

(** The strength of a distortion centre is one draw of
    [uniform(0.5, 1.5)] scaled by the strength [ds]. *)
Definition center_strength_from (ds : float) (center : Center.t) : Prop :=
  exists r : float,
    Center.strength center = ((0.5 + (1.5 - 0.5) * r) * ds)%py.

Lemma init_distortion_center_strength c ds dv w center w' :
  init_distortion_center c ds dv w = Some (center, w') ->
  center_strength_from ds center.
Proof.
  unfold init_distortion_center. intros H. inv_M H. inversion H; subst.
  unfold uniform in Hm1. inv_M Hm1. inversion Hm1; subst.
  eexists. reflexivity.
Qed.

(** C9: the constructor sets [distortion_strength] to
    [entropy * resonance * 0.3]; no frame changes it or the centres; below
    0.1 there is no centre, otherwise there are [int(1 + entropy * 2)] of
    them, each with a strength that is a draw of [uniform(0.5, 1.5)] times
    it; and the skip test, the sampling step and the blend factor of the
    distortion pass are the functions of it the source gives. *)
Theorem distortion_strength_derived (c : config) (w w' : world) (self : Chimerox) :
  Chimerox_init c w = Some (self, w') ->
  let ds := (entropy c * resonance c * 0.3)%py in
  distortion_strength self = ds /\
  (flt ds 0.1 = true -> distortion_centers self = []) /\
  (flt ds 0.1 = false ->
   exists n, py_int (1 + entropy c * 2)%py = Some n /\
             length (distortion_centers self) = Z.to_nat n) /\
  Forall (center_strength_from ds) (distortion_centers self) /\
  (forall cv frame,
      flt ds 0.05 = true -> apply_reality_distortion self cv frame = Some cv) /\
  sampling_step self = (st <-? py_int (4 - ds * 8)%py ;; Some (Z.max 1 st)) /\
  blend_factor self = py_min 1 (ds * 2)%py /\
  (forall frame w1 cv self1 w2,
      draw_frame self frame w1 = Some ((cv, self1), w2) ->
      distortion_strength self1 = ds /\
      distortion_centers self1 = distortion_centers self).
Proof.
  intros Hinit ds.
  destruct (Chimerox_init_attrs _ _ _ _ Hinit)
    as (_ & _ & _ & _ & Hds & Hdv & w1 & Hc).
  fold ds in Hds. rewrite Hds in Hc.
  unfold init_distortion_centers in Hc.
  split; [exact Hds|]. split; [|split; [|split; [|split; [|split; [|split]]]]].
  - intros Hlt. rewrite Hlt in Hc. apply ret_Some in Hc.
    inversion Hc. reflexivity.
  - intros Hge. rewrite Hge in Hc. inv_M Hc.
    apply lift_Some in Hm. destruct Hm as (n & Hn & E). inversion E; subst.
    exists n. split; [exact Hn|].
    destruct (mapM_Forall (fun _ => True) _ (fun _ _ _ _ _ => I) _ _ _ _ Hc)
      as [_ Hlen].
    rewrite Hlen. apply length_range.
  - destruct (flt ds 0.1).
    + apply ret_Some in Hc. inversion Hc as [[E1 E2]]. rewrite E1. constructor.
    + inv_M Hc.
      refine (proj1 (mapM_Forall (center_strength_from ds) _ _ _ _ _ _ Hc)).
      intros _ wa ctr wb. apply init_distortion_center_strength.
  - intros cv frame Hskip. unfold apply_reality_distortion.
    rewrite Hds, Hskip. reflexivity.
  - unfold sampling_step. rewrite Hds. reflexivity.
  - unfold blend_factor. rewrite Hds. reflexivity.
  - intros frame wa cv self1 wb Hd.
    destruct (draw_frame_raster _ _ _ _ _ _ Hd) as [_ (bs & ps & ->)].
    split; [exact Hds|reflexivity].
Qed.

End DistortionStrength.

(* ------------------------------------------------------------------ *)
(** ** The particle update: wrap, ageing and respawn *)
(* ------------------------------------------------------------------ *)

Section ParticleUpdate.
Context {L : PyLib}.

Lemma move_particle_keeps self p frame w moved w1 :
  move_particle self p frame w = Some (moved, w1) ->
  Particle.age moved = Particle.age p /\
  Particle.life moved = Particle.life p /\
  Particle.size moved = Particle.size p /\
  Particle.orbit_radius moved = Particle.orbit_radius p /\
  Particle.orbit_speed moved = Particle.orbit_speed p /\
  Particle.color_offset moved = Particle.color_offset p.
Proof.
  unfold move_particle. intros H. inv_M H.
  inversion H; subst. cbn. repeat split; reflexivity.
Qed.

Lemma wrap_particle_keeps self p wrapped :
  wrap_particle self p = Some wrapped ->
  Particle.vx wrapped = Particle.vx p /\
  Particle.vy wrapped = Particle.vy p /\
  Particle.age wrapped = Particle.age p /\
  Particle.life wrapped = Particle.life p /\
  Particle.size wrapped = Particle.size p /\
  Particle.orbit_radius wrapped = Particle.orbit_radius p /\
  Particle.orbit_speed wrapped = Particle.orbit_speed p /\
  Particle.color_offset wrapped = Particle.color_offset p.
Proof.
  unfold wrap_particle. intros H. inv_O H. cbn. repeat split; reflexivity.
Qed.

(** An age above the life stays above it when incremented. *)
Lemma int_gt_float_succ (n : Z) (x : float) :
  int_gt_float n x = true -> int_gt_float (n + 1) x = true.
Proof.
  unfold int_gt_float, Zcompare_float.
  destruct x as [s|s| |s m e]; try (intros H; exact H).
  - destruct (Z.compare_spec n 0); try discriminate.
    intros _. destruct (Z.compare_spec (n + 1) 0); [lia|lia|reflexivity].
  - destruct e as [|q|q].
    + destruct (Z.compare_spec n ((if s then Z.neg m else Z.pos m) * 2 ^ 0));
        try discriminate.
      intros _.
      destruct (Z.compare_spec (n + 1)
                  ((if s then Z.neg m else Z.pos m) * 2 ^ 0));
        [lia|lia|reflexivity].
    + destruct (Z.compare_spec n
                  ((if s then Z.neg m else Z.pos m) * 2 ^ Z.pos q));
        try discriminate.
      intros _.
      destruct (Z.compare_spec (n + 1)
                  ((if s then Z.neg m else Z.pos m) * 2 ^ Z.pos q));
        [lia|lia|reflexivity].
    + assert (0 < 2 ^ Z.pos q) by (apply Z.pow_pos_nonneg; lia).
      destruct (Z.compare_spec (n * 2 ^ Z.pos q)
                  (if s then Z.neg m else Z.pos m)); try discriminate.
      intros _.
      destruct (Z.compare_spec ((n + 1) * 2 ^ Z.pos q)
                  (if s then Z.neg m else Z.pos m));
        [nia|nia|reflexivity].
Qed.

(** The particle a respawn leaves: a fresh position and life from the next
    three draws of the stream [s], age zero, the rest as it was. *)
Definition respawned (self : Chimerox) (p : Particle.t) (s : rng) : Particle.t :=
  let u k := nth k (draws 3 s) S754_nan in
  {| Particle.x := (of_int 0 + of_int (width self - 0) * u 0%nat)%py;
     Particle.y := (of_int 0 + of_int (height self - 0) * u 1%nat)%py;
     Particle.vx := Particle.vx p;
     Particle.vy := Particle.vy p;
     Particle.size := Particle.size p;
     Particle.age := 0;
     Particle.life := (of_int 50 + of_int (200 - 50) * u 2%nat)%py;
     Particle.orbit_radius := Particle.orbit_radius p;
     Particle.orbit_speed := Particle.orbit_speed p;
     Particle.color_offset := Particle.color_offset p |}.

Lemma respawn_particle_dead self p w :
  int_gt_float (Particle.age p) (Particle.life p) = true ->
  respawn_particle self p w =
  Some (respawned self p (py_random w),
        {| py_random := advance 3 (py_random w); np_random := np_random w |}).
Proof. unfold respawn_particle. intros ->. reflexivity. Qed.

Lemma respawn_particle_alive self p w :
  int_gt_float (Particle.age p) (Particle.life p) = false ->
  respawn_particle self p w = Some (p, w).
Proof. unfold respawn_particle. intros ->. reflexivity. Qed.

(** C7: a particle whose age exceeds its life, on entry or once
    incremented, is respawned by that very update: when the movement and
    the wrap return, the update returns the moved particle with age 0 and
    with x, y and life set to the next three draws of the stream, as
    [uniform(0, width)], [uniform(0, height)] and [uniform(50, 200)]. *)
Theorem particle_respawn (self : Chimerox) (p moved wrapped : Particle.t)
    (frame : Z) (w w1 : world) :
  move_particle self p frame w = Some (moved, w1) ->
  wrap_particle self moved = Some wrapped ->
  int_gt_float (Particle.age p) (Particle.life p) = true \/
  int_gt_float (Particle.age p + 1) (Particle.life p) = true ->
  update_particle self p frame w =
  Some (respawned self wrapped (py_random w1),
        {| py_random := advance 3 (py_random w1); np_random := np_random w1 |})
  /\ Particle.age (respawned self wrapped (py_random w1)) = 0
  /\ Particle.life (respawned self wrapped (py_random w1))
     = (of_int 50 + of_int 150 * nth 2 (draws 3 (py_random w1)) S754_nan)%py.
Proof.
  intros Hmove Hwrap Hdead.
  assert (Hgt : int_gt_float (Particle.age p + 1) (Particle.life p) = true).
  { destruct Hdead as [H|H]; [apply int_gt_float_succ, H|exact H]. }
  destruct (move_particle_keeps _ _ _ _ _ _ Hmove) as (Ea & El & _).
  destruct (wrap_particle_keeps _ _ _ Hwrap) as (_ & _ & Fa & Fl & _).
  split; [|split; reflexivity].
  unfold update_particle.
  rewrite (bind_eq _ _ _ _ _ Hmove). rewrite Hwrap.
  change (bind (lift (Some wrapped)) ?k w1) with (k wrapped w1). cbv beta.
  rewrite respawn_particle_dead.
  - reflexivity.
  - cbn. rewrite Fa, Fl, Ea, El. exact Hgt.
Qed.

End ParticleUpdate.

(** Structural equality of two floats, decided. *)
Definition same_float (x y : float) : bool :=
  match x, y with
  | S754_zero a, S754_zero b => Bool.eqb a b
  | S754_infinity a, S754_infinity b => Bool.eqb a b
  | S754_nan, S754_nan => true
  | S754_finite a m e, S754_finite b m' e' =>
      Bool.eqb a b && Pos.eqb m m' && Z.eqb e e'
  | _, _ => false
  end.

Lemma same_float_eq (x y : float) : same_float x y = true -> x = y.
Proof.
  destruct x as [a|a| |a m e], y as [b|b| |b m' e']; cbn; try discriminate;
    intros H.
  - apply eqb_prop in H. congruence.
  - apply eqb_prop in H. congruence.
  - reflexivity.
  - apply andb_prop in H. destruct H as [H He].
    apply andb_prop in H. destruct H as [Hs Hm].
    apply eqb_prop in Hs. apply Pos.eqb_eq in Hm. apply Z.eqb_eq in He.
    congruence.
Qed.

Section BoundaryWrap.
Context {L : PyLib}.

(** [coord < 0 or coord > extent] *)
Definition out_of_bounds (coord : float) (extent : Z) : bool :=
  float_lt_int coord 0 || float_gt_int coord extent.

(** The wrap of [extent + 5] under phase zero, checked against
    [5 mod extent]. *)
Definition wraps_five (extent : Z) : bool :=
  out_of_bounds (of_int (extent + 5)) extent &&
  match py_mod (of_int (extent + 5) + S754_zero false * 100)%py (of_int extent) with
  | Some x => same_float x (of_int (5 mod extent))
  | None => false
  end.

Lemma wraps_five_all (extent : Z) : 1 <= extent <= 8192 -> wraps_five extent = true.
Proof.
  intros He.
  assert (H : forallb (fun i => wraps_five (i + 1)) (range 8192) = true)
    by (vm_compute; reflexivity).
  rewrite forallb_forall in H.
  specialize (H (extent - 1) (In_range 8192 (extent - 1) ltac:(lia))).
  replace (extent - 1 + 1) with extent in H by lia. exact H.
Qed.

(** C8: the update wraps the moved particle, axis by axis: a coordinate
    below 0 or above the extent becomes
    [(coord + phase * 100) mod extent], any other is kept; when the particle
    is not respawned these are the coordinates the update returns.  For
    every extent from 1 to 8192 and phase zero, the coordinate
    [extent + 5] wraps to [5 mod extent]. *)
Theorem boundary_wrap (self : Chimerox) (p moved : Particle.t) (frame : Z)
    (w w1 : world) :
  move_particle self p frame w = Some (moved, w1) ->
  (forall coord extent,
      wrap_coord self coord extent =
      if out_of_bounds coord extent
      then py_mod (coord + phase self * 100)%py (of_int extent)
      else Some coord) /\
  (forall wrapped,
      wrap_particle self moved = Some wrapped ->
      wrap_coord self (Particle.x moved) (width self) = Some (Particle.x wrapped) /\
      wrap_coord self (Particle.y moved) (height self) = Some (Particle.y wrapped) /\
      (int_gt_float (Particle.age p + 1) (Particle.life p) = false ->
       update_particle self p frame w = Some (age_particle wrapped, w1))) /\
  (forall extent,
      1 <= extent <= 8192 -> phase self = S754_zero false ->
      out_of_bounds (of_int (extent + 5)) extent = true /\
      wrap_coord self (of_int (extent + 5)) extent = Some (of_int (5 mod extent))).
Proof.
  intros Hmove. split; [|split].
  - intros coord extent. reflexivity.
  - intros wrapped Hwrap.
    destruct (move_particle_keeps _ _ _ _ _ _ Hmove) as (Ea & El & _).
    destruct (wrap_particle_keeps _ _ _ Hwrap) as (_ & _ & Fa & Fl & _).
    pose proof Hwrap as Hw. unfold wrap_particle in Hw. inv_O Hw. cbn.
    split; [exact Ho|]. split; [exact Ho0|].
    intros Halive. unfold update_particle.
    rewrite (bind_eq _ _ _ _ _ Hmove). rewrite Hwrap.
    change (bind (lift (Some ?q)) ?k w1) with (k q w1). cbv beta.
    apply respawn_particle_alive. cbn. rewrite Ea, El. exact Halive.
  - intros extent He Hphase.
    pose proof (wraps_five_all extent He) as H. unfold wraps_five in H.
    apply andb_prop in H. destruct H as [Hout H]. split; [exact Hout|].
    unfold wrap_coord. fold (out_of_bounds (of_int (extent + 5)) extent).
    rewrite Hout, Hphase.
    destruct (py_mod _ _) as [x|]; [|discriminate].
    apply same_float_eq in H. rewrite H. reflexivity.
Qed.

End BoundaryWrap.

(* ------------------------------------------------------------------ *)
(** ** The two ranges of a particle's life *)
(* ------------------------------------------------------------------ *)

Section LifeRanges.
Context {L : PyLib}.





End LifeRanges.

(* ================================================================== *)
(** * The properties on concrete inputs *)
(* ================================================================== *)





Module Examples.

(** The streams a run may find, and a small configuration whose
    distortion strength, 0.6, is above one half. *)
Definition streams : @world ExampleLib.lib := @Build_world ExampleLib.lib 1 1.

Definition small : config :=
  {| iota := 12345; omicron := 7; phase := 0%py; threshold := 40;
     resonance := 4%py; entropy := 0.5%py;
     width := 16; height := 12; duration := 1; fps := 2 |}.

Definition center : Center.t :=
  {| Center.x := 8%py; Center.y := 6%py; Center.strength := 0.6%py;
     Center.radius := 4.8%py; Center.rotation_speed := 0.0002%py;
     Center.phase_offset := 1%py |}.

(** A particle past its life. *)
Definition dead : Particle.t :=
  {| Particle.x := 3%py; Particle.y := 4%py;
     Particle.vx := 0.5%py; Particle.vy := 0.25%py; Particle.size := 3%py;
     Particle.age := 500; Particle.life := 120.5%py;
     Particle.orbit_radius := 50%py; Particle.orbit_speed := 0.1%py;
     Particle.color_offset := 0.3%py |}.

(** A young particle about to leave the canvas on the right. *)
Definition leaving : Particle.t :=
  {| Particle.x := 15.75%py; Particle.y := 4%py;
     Particle.vx := 2%py; Particle.vy := 0.25%py; Particle.size := 3%py;
     Particle.age := 2; Particle.life := 120.5%py;
     Particle.orbit_radius := 50%py; Particle.orbit_speed := 0.1%py;
     Particle.color_offset := 0.3%py |}.

(** An object with the given distortion strength, a value the constructor
    may have computed, and one particle. *)
Definition object (strength : float) : Chimerox :=
  {| args := small; total_frames := 2; num_particles := 1;
     particles := [dead];
     base_hue := 0.25%py; hue_shift := 0.07%py;
     bokeh_particles := []; bokeh_movement_speed := 1.05%py;
     wave_count := 8; wave_curves := 2; wave_depth := 62.5%py;
     wave_speed := 0.052%py; wave_opacity := 140;
     vortex_centers := []; vortex_intensity := 3%py;
     vortex_rotation_speed := 0.03%py;
     distortion_strength := strength; distortion_type := 3;
     distortion_speed := 0.02%py; distortion_centers := [center] |}.


(** What the movement block makes of [dead] and of [leaving] at frame 0,
    with the streams it leaves, and the wrap of the former. *)
Definition dead_moved : Particle.t * @world ExampleLib.lib :=
  Eval vm_compute in
  match move_particle (L := ExampleLib.lib) (object 0.6%py) dead 0 streams with
  | Some r => r
  | None => (dead, streams)
  end.

Definition dead_wrapped : Particle.t :=
  Eval vm_compute in
  match wrap_particle (object 0.6%py) (fst dead_moved) with
  | Some q => q
  | None => dead
  end.

Definition leaving_moved : Particle.t * @world ExampleLib.lib :=
  Eval vm_compute in
  match move_particle (L := ExampleLib.lib) (object 0.6%py) leaving 0 streams with
  | Some r => r
  | None => (leaving, streams)
  end.

End Examples.

Lemma init_particles_pure_witness :
  exists ps w',
    init_particles (L := ExampleLib.lib) Examples.small 3 Examples.streams
    = Some (ps, w') /\
    length ps = 3%nat /\
    nth_error ps 1 = Some (particle_at (L := ExampleLib.lib) Examples.small 1).
Proof.
  exact (init_particles_pure (L := ExampleLib.lib) Examples.small 3 1
           Examples.streams ltac:(lia)).
Defined.

Lemma particle_count_floor_witness :
  particle_count scenario
  = py_floor (of_int 500 * 0.15 * (0.3 + 0.5 * 0.7))%py /\
  particle_count scenario = Some 48.
Proof.
  pose proof (particle_count_floor (L := ExampleLib.lib) scenario) as H.
  cbv zeta in H. destruct H as (_ & _ & H & _ & E).
  exact (conj (H ltac:(cbn; lia) eq_refl) (E eq_refl eq_refl)).
Defined.

(** Density 500 with entropy -1: the product is -30 and a fraction, its
    floor is -30, and the count is -29. *)
Definition negative_entropy : config :=
  {| iota := 12345; omicron := 0; phase := 0%py; threshold := 500;
     resonance := 2%py; entropy := of_int (-1);
     width := 640; height := 480; duration := 1; fps := 24 |}.

Lemma particle_count_not_floor :
  particle_count negative_entropy = Some (-29) /\
  py_floor (of_int (threshold negative_entropy) * 0.15
            * (0.3 + entropy negative_entropy * 0.7))%py = Some (-30) /\
  particle_count negative_entropy
  <> py_floor (of_int (threshold negative_entropy) * 0.15
               * (0.3 + entropy negative_entropy * 0.7))%py.
Proof. repeat split. discriminate. Qed.


Lemma distortion_skipped_witness :
  draw_frame (L := ExampleLib.lib) (Examples.object 0.04%py) 0 Examples.streams
  = composite (Examples.object 0.04%py) 0 Examples.streams.
Proof.
  exact (proj2 (distortion_skipped (L := ExampleLib.lib)
                  (Examples.object 0.04%py) 0 Examples.streams eq_refl)).
Defined.

Lemma particle_respawn_witness :
  update_particle (L := ExampleLib.lib) (Examples.object 0.6%py)
    Examples.dead 0 Examples.streams =
  Some (respawned (L := ExampleLib.lib) (Examples.object 0.6%py)
          Examples.dead_wrapped (py_random (snd Examples.dead_moved)),
        {| py_random := advance 3 (py_random (snd Examples.dead_moved));
           np_random := np_random (snd Examples.dead_moved) |})
  /\ Particle.age (respawned (L := ExampleLib.lib) (Examples.object 0.6%py)
                    Examples.dead_wrapped
                    (py_random (snd Examples.dead_moved))) = 0
  /\ Particle.life (respawned (L := ExampleLib.lib) (Examples.object 0.6%py)
                     Examples.dead_wrapped
                     (py_random (snd Examples.dead_moved)))
     = (of_int 50
        + of_int 150
          * nth 2 (draws 3 (py_random (snd Examples.dead_moved))) S754_nan)%py.
Proof.
  exact (particle_respawn (L := ExampleLib.lib) (Examples.object 0.6%py)
           Examples.dead (fst Examples.dead_moved) Examples.dead_wrapped 0
           Examples.streams (snd Examples.dead_moved)
           eq_refl eq_refl
           (or_introl eq_refl)).
Defined.

Lemma boundary_wrap_witness :
  out_of_bounds (of_int (640 + 5)) 640 = true /\
  wrap_coord (Examples.object 0.6%py) (of_int (640 + 5)) 640
  = Some (of_int (5 mod 640)).
Proof.
  exact (proj2 (proj2 (boundary_wrap (L := ExampleLib.lib)
                         (Examples.object 0.6%py) Examples.leaving
                         (fst Examples.leaving_moved) 0 Examples.streams
                         (snd Examples.leaving_moved)
                         eq_refl))
           640 ltac:(lia) eq_refl).
Defined.

Lemma distortion_strength_derived_witness :
  exists self w',
    Chimerox_init (L := ExampleLib.lib) Examples.small Examples.streams
    = Some (self, w') /\
    distortion_strength self = (0.5 * 4 * 0.3)%py.
Proof.
  destruct (Chimerox_init_total (L := ExampleLib.lib) Examples.small
              Examples.streams eq_refl) as (self & w' & H).
  exists self, w'.
  exact (conj H (proj1 (distortion_strength_derived Examples.small
                          Examples.streams w' self H))).
Defined.


(* ================================================================== *)
(** * Further properties of the generator *)
(* ================================================================== *)

(* ------------------------------------------------------------------ *)
(** ** What a frame keeps of the entities *)
(* ------------------------------------------------------------------ *)

(** The parameters of a particle that no update touches. *)
Definition same_particle_kind (p p' : Particle.t) : Prop :=
  Particle.size p' = Particle.size p /\
  Particle.orbit_radius p' = Particle.orbit_radius p /\
  Particle.orbit_speed p' = Particle.orbit_speed p /\
  Particle.color_offset p' = Particle.color_offset p.

(** The parameters of a blob that no frame touches. *)
Definition same_bokeh_kind (b b' : Bokeh.t) : Prop :=
  Bokeh.size b' = Bokeh.size b /\
  Bokeh.hue b' = Bokeh.hue b /\
  Bokeh.flicker_offset b' = Bokeh.flicker_offset b /\
  Bokeh.movement_angle b' = Bokeh.movement_angle b /\
  Bokeh.depth b' = Bokeh.depth b.

Section Entities.
Context {L : PyLib}.

Lemma update_particle_kind self p frame w p' w' :
  update_particle self p frame w = Some (p', w') -> same_particle_kind p p'.
Proof.
  unfold update_particle. intros H. inv_M H.
  apply lift_Some in Hm0. destruct Hm0 as (wrapped & Hwrap & E).
  inversion E; subst.
  destruct (move_particle_keeps _ _ _ _ _ _ Hm) as (_ & _ & E1 & E2 & E3 & E4).
  destruct (wrap_particle_keeps _ _ _ Hwrap)
    as (_ & _ & _ & _ & F1 & F2 & F3 & F4).
  unfold respawn_particle in H.
  destruct (int_gt_float _ _).
  - inv_M H. inversion H; subst. unfold same_particle_kind. cbn.
    repeat split; congruence.
  - apply ret_Some in H. inversion H; subst. unfold same_particle_kind. cbn.
    repeat split; congruence.
Qed.

Lemma draw_particles_kind self frame :
  forall l cv done cv' ps w w',
    foldM (fun acc particle =>
             let '(cv, done) := acc in
             particle' <- update_particle self particle frame ;;
             cv' <- lift (draw_particle self particle' frame cv) ;;
             ret (cv', done ++ [particle']))
          l (cv, done) w = Some ((cv', ps), w') ->
    exists new, ps = done ++ new /\ Forall2 same_particle_kind l new.
Proof.
  induction l as [|p l IH]; intros cv done cv' ps w w' H; cbn in H.
  - apply ret_Some in H. inversion H; subst. exists [].
    split; [rewrite app_nil_r; reflexivity|constructor].
  - apply bind_Some in H. destruct H as ([cv1 done1] & w1 & Hstep & H).
    inv_M Hstep. apply lift_Some in Hm0. destruct Hm0 as (c & _ & E).
    inversion E; subst. inversion Hstep; subst.
    destruct (IH _ _ _ _ _ _ H) as (new & -> & HF).
    exists (a :: new). split; [rewrite <- app_assoc; reflexivity|].
    constructor; [eapply update_particle_kind; eassumption|exact HF].
Qed.

Lemma draw_bokeh_particle_kind self brightness frame bokeh cv cv' bokeh' :
  draw_bokeh_particle self brightness frame bokeh cv = Some (cv', bokeh') ->
  same_bokeh_kind bokeh bokeh'.
Proof.
  unfold draw_bokeh_particle. intros H. inv_O H;
    unfold same_bokeh_kind; cbn; repeat split; reflexivity.
Qed.

Lemma draw_bokeh_kind self brightness frame :
  forall l cv done cv' bs,
    ofold (fun acc bokeh =>
             let '(cv, done) := acc in
             '(cv', bokeh') <-?
               draw_bokeh_particle self brightness frame bokeh cv ;;
             Some (cv', done ++ [bokeh']))
          l (cv, done) = Some (cv', bs) ->
    exists new, bs = done ++ new /\ Forall2 same_bokeh_kind l new.
Proof.
  induction l as [|b l IH]; intros cv done cv' bs H; cbn in H.
  - inversion H; subst. exists [].
    split; [rewrite app_nil_r; reflexivity|constructor].
  - apply obind_Some in H. destruct H as ([cv1 done1] & Hstep & H).
    apply obind_Some in Hstep. destruct Hstep as ([cv2 b'] & Hb & Hstep).
    inversion Hstep; subst.
    destruct (IH _ _ _ _ H) as (new & -> & HF).
    exists (b' :: new). split; [rewrite <- app_assoc; reflexivity|].
    constructor; [eapply draw_bokeh_particle_kind; eassumption|exact HF].
Qed.

(** X1: a frame moves the particles and the blobs but keeps their number,
    their order and their intrinsic parameters (size, orbit, colour offset;
    size, hue, flicker offset, movement angle, depth), and it changes no
    other attribute of the object. *)
Theorem draw_frame_keeps_entities (self self' : Chimerox) (frame : Z)
    (w w' : world) (cv : canvas) :
  draw_frame self frame w = Some ((cv, self'), w') ->
  Forall2 same_particle_kind (particles self) (particles self') /\
  Forall2 same_bokeh_kind (bokeh_particles self) (bokeh_particles self') /\
  self' = set_particles (set_bokeh_particles self (bokeh_particles self'))
            (particles self').
Proof.
  unfold draw_frame. intros H. inv_M H.
  apply lift_Some in Hm0. destruct Hm0 as (cv1 & _ & E). inversion E; subst.
  inversion H; subst. clear H E.
  unfold composite in Hm. inv_M Hm.
  apply lift_Some in Hm0. destruct Hm0 as (cv0 & _ & E0). inversion E0; subst.
  apply lift_Some in Hm1. destruct Hm1 as (bg & _ & E1). inversion E1; subst.
  apply lift_Some in Hm2. destruct Hm2 as (r1 & Hb & E2). inversion E2; subst.
  apply lift_Some in Hm3. destruct Hm3 as (r2 & _ & E3). inversion E3; subst.
  apply lift_Some in Hm4. destruct Hm4 as (r3 & _ & E4). inversion E4; subst.
  inversion Hm; subst. cbn [particles bokeh_particles set_particles
                              set_bokeh_particles].
  unfold draw_bokeh in Hb.
  destruct (draw_bokeh_kind _ _ _ _ _ _ _ _ Hb) as (nb & -> & HB).
  unfold draw_particles in Hm5.
  destruct (draw_particles_kind _ _ _ _ _ _ _ _ _ Hm5) as (np & -> & HP).
  cbn in HP. repeat split; assumption || reflexivity.
Qed.

End Entities.

(* ------------------------------------------------------------------ *)
(** ** When the constructor raises, and the entities it builds *)
(* ------------------------------------------------------------------ *)

Section ConstructorOutcome.
Context {L : PyLib}.

Lemma Some_is_some {A} (o : option A) (a : A) : o = Some a -> is_some o = true.
Proof. intros ->. reflexivity. Qed.

Lemma mapM_length {A B} (f : A -> M B) l w bs w' :
  mapM f l w = Some (bs, w') -> length bs = length l.
Proof.
  intros H.
  exact (proj2 (mapM_Forall (fun _ => True) f (fun _ _ _ _ _ => I) l w bs w' H)).
Qed.

(** The numbers of entities a constructed object holds. *)
Lemma Chimerox_init_counts (c : config) (w w' : world) (self : Chimerox) :
  Chimerox_init c w = Some (self, w') ->
  exists nb nv,
    py_int (25 + of_int (threshold c) * 0.08)%py = Some nb /\
    length (bokeh_particles self) = Z.to_nat nb /\
    py_int (2 + entropy c * 3)%py = Some nv /\
    length (vortex_centers self) = Z.to_nat nv /\
    py_int (8 + (of_int (threshold c) / 100) * entropy c)%py
      = Some (wave_count self) /\
    is_some (py_int (of_int (omicron c mod 5) * entropy c)%py) = true /\
    is_some (py_int (80 + entropy c * 120)%py) = true.
Proof.
  unfold Chimerox_init. intros H. inv_M H.
  apply lift_Some in Hm1. destruct Hm1 as (n & Hn & E1). inversion E1; subst.
  apply lift_Some in Hm4. destruct Hm4 as (wc & Hwc & E4). inversion E4; subst.
  apply lift_Some in Hm5. destruct Hm5 as (wf & Hwf & E5). inversion E5; subst.
  apply lift_Some in Hm6. destruct Hm6 as (wo & Hwo & E6). inversion E6; subst.
  inversion H; subst. cbn [bokeh_particles vortex_centers wave_count].
  unfold init_bokeh in Hm3. inv_M Hm3.
  apply lift_Some in Hm1. destruct Hm1 as (nb & Hnb & E). inversion E; subst.
  unfold init_vortex_centers in Hm7. inv_M Hm7.
  apply lift_Some in Hm1. destruct Hm1 as (nv & Hnv & E'). inversion E'; subst.
  exists nb, nv.
  rewrite (mapM_length _ _ _ _ _ Hm3), (mapM_length _ _ _ _ _ Hm7).
  rewrite !length_range.
  repeat split; try assumption; try reflexivity;
    eapply Some_is_some; eassumption.
Qed.

Lemma Chimerox_init_defined (c : config) (w w' : world) (self : Chimerox) :
  Chimerox_init c w = Some (self, w') -> init_defined c = true.
Proof.
  intros H.
  destruct (Chimerox_init_counts c w w' self H)
    as (nb & nv & Hnb & _ & Hnv & _ & Hwc & Hwf & Hwo).
  destruct (Chimerox_init_attrs c w w' self H)
    as (_ & _ & Hn & _ & Hds & _ & w1 & Hc).
  unfold init_defined.
  rewrite (Some_is_some _ _ Hn), (Some_is_some _ _ Hnb),
    (Some_is_some _ _ Hwc), Hwf, Hwo, (Some_is_some _ _ Hnv).
  cbn [andb]. rewrite Hds in Hc. unfold init_distortion_centers in Hc.
  destruct (flt (entropy c * resonance c * 0.3) 0.1); [reflexivity|].
  inv_M Hc. apply lift_Some in Hm. destruct Hm as (nc & Hnc & _).
  rewrite (Some_is_some _ _ Hnc). reflexivity.
Qed.

(** X2: for a density, a width and a height that convert to floats as
    they are (up to 2^52 in magnitude), the constructor raises exactly when
    one of its [int(...)] conversions meets an infinity or NaN, whatever
    the streams hold; when it returns, the object holds
    [int(25 + threshold * 0.08)] blobs, [int(2 + entropy * 3)] vortex
    centres and as many particles as [num_particles] says (none when a
    count is negative). *)
Theorem Chimerox_init_outcome (c : config) (w : world) :
  Z.abs (threshold c) <= 2 ^ 52 ->
  Z.abs (width c) <= 2 ^ 52 ->
  Z.abs (height c) <= 2 ^ 52 ->
  (Chimerox_init c w = None <-> init_defined c = false) /\
  (forall self w',
      Chimerox_init c w = Some (self, w') ->
      exists nb nv,
        py_int (25 + of_int (threshold c) * 0.08)%py = Some nb /\
        length (bokeh_particles self) = Z.to_nat nb /\
        py_int (2 + entropy c * 3)%py = Some nv /\
        length (vortex_centers self) = Z.to_nat nv /\
        length (particles self) = Z.to_nat (num_particles self)).
Proof.
  intros _ _ _. split.
  - split.
    + intros Hnone. destruct (init_defined c) eqn:D; [|reflexivity].
      destruct (Chimerox_init_total c w D) as (self & w' & H). congruence.
    + intros D. destruct (Chimerox_init c w) as [[self w']|] eqn:H;
        [|reflexivity].
      rewrite (Chimerox_init_defined c w w' self H) in D. discriminate.
  - intros self w' H.
    destruct (Chimerox_init_counts c w w' self H)
      as (nb & nv & Hnb & Lb & Hnv & Lv & _).
    destruct (Chimerox_init_attrs c w w' self H) as (_ & _ & _ & Hp & _).
    exists nb, nv. repeat split; try assumption.
    rewrite Hp, length_map. apply length_range.
Qed.

End ConstructorOutcome.

Section Timing.
Context {L : PyLib}.

(** The configuration with another duration and frame rate. *)
Definition retimed (c : config) (d f : Z) : config :=
  {| iota := iota c; omicron := omicron c; phase := phase c;
     threshold := threshold c; resonance := resonance c;
     entropy := entropy c; width := width c; height := height c;
     duration := d; fps := f |}.

(** The object with another duration, frame rate and frame count. *)
Definition retime (self : Chimerox) (d f n : Z) : Chimerox :=
  {| args := retimed self d f; total_frames := n;
     num_particles := num_particles self; particles := particles self;
     base_hue := base_hue self; hue_shift := hue_shift self;
     bokeh_particles := bokeh_particles self;
     bokeh_movement_speed := bokeh_movement_speed self;
     wave_count := wave_count self; wave_curves := wave_curves self;
     wave_depth := wave_depth self; wave_speed := wave_speed self;
     wave_opacity := wave_opacity self;
     vortex_centers := vortex_centers self;
     vortex_intensity := vortex_intensity self;
     vortex_rotation_speed := vortex_rotation_speed self;
     distortion_strength := distortion_strength self;
     distortion_type := distortion_type self;
     distortion_speed := distortion_speed self;
     distortion_centers := distortion_centers self |}.

(** Two objects that differ at most in duration, frame rate and frame
    count. *)
Definition same_look (s1 s2 : Chimerox) : Prop :=
  retime s1 0 0 0 = retime s2 0 0 0.

Ltac look H :=
  match type of H with
  | same_look ?s1 ?s2 =>
      destruct s1 as [[] ], s2 as [[] ]; unfold same_look, retime, retimed in H;
      cbn in H; injection H; clear H; intros; subst
  end.

Lemma draw_bokeh_look s1 s2 : same_look s1 s2 -> draw_bokeh s1 = draw_bokeh s2.
Proof. intros H. look H. reflexivity. Qed.

Lemma draw_waves_look s1 s2 : same_look s1 s2 -> draw_waves s1 = draw_waves s2.
Proof. intros H. look H. reflexivity. Qed.

Lemma draw_vortex_field_look s1 s2 :
  same_look s1 s2 -> draw_vortex_field s1 = draw_vortex_field s2.
Proof. intros H. look H. reflexivity. Qed.

Lemma apply_reality_distortion_look s1 s2 :
  same_look s1 s2 -> apply_reality_distortion s1 = apply_reality_distortion s2.
Proof. intros H. look H. reflexivity. Qed.

Lemma background_look s1 s2 : same_look s1 s2 -> background s1 = background s2.
Proof. intros H. look H. reflexivity. Qed.

Lemma draw_particles_look s1 s2 :
  same_look s1 s2 -> draw_particles s1 = draw_particles s2.
Proof. intros H. look H. reflexivity. Qed.

Lemma size_look s1 s2 :
  same_look s1 s2 -> height s1 = height s2 /\ width s1 = width s2.
Proof. intros H. look H. split; reflexivity. Qed.

Lemma same_look_refl s : same_look s s.
Proof. reflexivity. Qed.

Lemma same_look_bokeh s1 s2 bs :
  same_look s1 s2 ->
  same_look (set_bokeh_particles s1 bs) (set_bokeh_particles s2 bs).
Proof. intros H. look H. reflexivity. Qed.

Lemma same_look_particles s1 s2 ps :
  same_look s1 s2 -> same_look (set_particles s1 ps) (set_particles s2 ps).
Proof. intros H. look H. reflexivity. Qed.

(** Two outcomes that fail together or succeed with related values and
    the same streams. *)
Definition alike {A} (R : A -> A -> Prop) (o1 o2 : option (A * world)) : Prop :=
  match o1, o2 with
  | Some (a1, w1), Some (a2, w2) => R a1 a2 /\ w1 = w2
  | None, None => True
  | _, _ => False
  end.

Lemma alike_refl {A} (o : option (A * world)) : alike eq o o.
Proof. destruct o as [[a w]|]; cbn; [split; reflexivity|exact I]. Qed.

Lemma alike_bind {A B} (RA : A -> A -> Prop) (RB : B -> B -> Prop)
    (m1 m2 : M A) (k1 k2 : A -> M B) (w : world) :
  alike RA (m1 w) (m2 w) ->
  (forall a1 a2 w', RA a1 a2 -> alike RB (k1 a1 w') (k2 a2 w')) ->
  alike RB (bind m1 k1 w) (bind m2 k2 w).
Proof.
  unfold bind. intros Hm Hk.
  destruct (m1 w) as [[a1 w1]|], (m2 w) as [[a2 w2]|]; cbn in Hm;
    try contradiction; [|exact I].
  destruct Hm as [Ha ->]. apply Hk, Ha.
Qed.

Definition same_frame (r1 r2 : canvas * Chimerox) : Prop :=
  fst r1 = fst r2 /\ same_look (snd r1) (snd r2).

Lemma composite_look s1 s2 frame w :
  same_look s1 s2 ->
  alike same_frame (composite s1 frame w) (composite s2 frame w).
Proof.
  intros H. unfold composite.
  destruct (size_look _ _ H) as [-> ->].
  rewrite (background_look _ _ H), (draw_bokeh_look _ _ H).
  apply (alike_bind eq); [apply alike_refl|intros cv ? w1 <-].
  apply (alike_bind eq); [apply alike_refl|intros bg ? w2 <-].
  apply (alike_bind eq); [apply alike_refl|intros [cv1 bokeh] ? w3 <-].
  pose proof (same_look_bokeh _ _ bokeh H) as Hb.
  rewrite (draw_waves_look _ _ Hb), (draw_vortex_field_look _ _ Hb),
    (draw_particles_look _ _ Hb).
  apply (alike_bind eq); [apply alike_refl|intros cv2 ? w4 <-].
  apply (alike_bind eq); [apply alike_refl|intros cv3 ? w5 <-].
  apply (alike_bind eq); [apply alike_refl|intros [cv4 ps] ? w6 <-].
  cbn. split; [|reflexivity]. split; [reflexivity|].
  apply same_look_particles, Hb.
Qed.

Lemma draw_frame_look s1 s2 frame w :
  same_look s1 s2 ->
  alike same_frame (draw_frame s1 frame w) (draw_frame s2 frame w).
Proof.
  intros H. unfold draw_frame.
  apply (alike_bind same_frame); [apply composite_look, H|].
  intros [cv1 t1] [cv2 t2] w1 [Hc Ht]. cbn in Hc, Ht. subst cv2.
  rewrite (apply_reality_distortion_look _ _ Ht).
  apply (alike_bind eq); [apply alike_refl|intros cv ? w2 <-].
  cbn. split; [|reflexivity]. split; [reflexivity|exact Ht].
Qed.

Lemma frame_loop_look s1 s2 frames w :
  same_look s1 s2 ->
  fst (frame_loop s1 frames w) = fst (frame_loop s2 frames w) /\
  alike same_look (snd (frame_loop s1 frames w))
                  (snd (frame_loop s2 frames w)).
Proof.
  revert s1 s2 w. induction frames as [|frame rest IH]; intros s1 s2 w H.
  - cbn. repeat split. exact H.
  - cbn [frame_loop]. pose proof (draw_frame_look _ _ frame w H) as D.
    destruct (draw_frame s1 frame w) as [[[cv1 t1] w1]|],
      (draw_frame s2 frame w) as [[[cv2 t2] w2]|]; cbn in D;
      try contradiction.
    + destruct D as [[Hc Ht] ->]. cbn in Hc, Ht. subst cv2.
      specialize (IH t1 t2 w2 Ht).
      destruct (frame_loop t1 rest w2) as [fs1 r1],
        (frame_loop t2 rest w2) as [fs2 r2].
      cbn in IH |- *. destruct IH as [-> IH]. split; [reflexivity|exact IH].
    + cbn. split; [reflexivity|exact I].
Qed.

Lemma frame_loop_app self l1 l2 w :
  frame_loop self (l1 ++ l2) w =
  match frame_loop self l1 w with
  | (written, Some (self', w')) =>
      (written ++ fst (frame_loop self' l2 w'), snd (frame_loop self' l2 w'))
  | (written, None) => (written, None)
  end.
Proof.
  revert self w. induction l1 as [|frame l1 IH]; intros self w.
  - cbn. destruct (frame_loop self l2 w). reflexivity.
  - cbn [app frame_loop].
    destruct (draw_frame self frame w) as [[[cv t] w1]|]; [|reflexivity].
    rewrite IH. destruct (frame_loop t l1 w1) as [fs [[t' w']|]]; reflexivity.
Qed.

Lemma range_prefix (n m : Z) : n <= m -> exists rest, range m = range n ++ rest.
Proof.
  intros H. unfold range.
  destruct (Z.le_gt_cases n 0) as [N|N].
  - replace (Z.to_nat n) with 0%nat by lia. eexists. reflexivity.
  - replace (Z.to_nat m) with (Z.to_nat n + Z.to_nat (m - n))%nat by lia.
    rewrite seq_app, map_app. eexists. reflexivity.
Qed.

Lemma Chimerox_init_look (c : config) (d f : Z) (w : world) :
  alike same_look (Chimerox_init c w) (Chimerox_init (retimed c d f) w).
Proof.
  unfold Chimerox_init.
  repeat (apply (alike_bind eq); [apply alike_refl|intros ? ? ? <-]).
  cbn. split; reflexivity.
Qed.

(** X3: the frames of a run do not depend on the duration and the frame rate
    but for their number: with at least as many frames, another duration
    and frame rate give the same frames followed by further ones; a run
    that raised raises again at the same frame; with the same number of
    frames the two runs are the same. *)
Theorem frames_independent_of_timing (c : config) (d f : Z) (w : world) :
  duration c * fps c <= d * f ->
  exists rest,
    fst (run (retimed c d f) w) = fst (run c w) ++ rest /\
    (snd (run c w) = false ->
     rest = [] /\ snd (run (retimed c d f) w) = false) /\
    (duration c * fps c = d * f ->
     rest = [] /\ snd (run (retimed c d f) w) = snd (run c w)).
Proof.
  intros Hle. unfold run.
  pose proof (Chimerox_init_look c d f w) as Hi.
  destruct (Chimerox_init c w) as [[s1 w1]|] eqn:E1,
    (Chimerox_init (retimed c d f) w) as [[s2 w2]|] eqn:E2; cbn in Hi;
    try contradiction.
  2:{ exists []. repeat split. }
  destruct Hi as [Hs <-].
  apply Chimerox_init_attrs in E1. destruct E1 as (_ & T1 & _).
  apply Chimerox_init_attrs in E2. destruct E2 as (_ & T2 & _).
  cbn [duration fps retimed] in T2.
  unfold generate. rewrite T1, T2.
  destruct (range_prefix _ _ Hle) as [rest0 Hr]. rewrite Hr.
  rewrite frame_loop_app.
  destruct (frame_loop_look s1 s2 (range (duration c * fps c)) w1 Hs)
    as [Hf Ha].
  destruct (frame_loop s1 (range (duration c * fps c)) w1) as [fs1 r1],
    (frame_loop s2 (range (duration c * fps c)) w1) as [fs2 r2].
  cbn [fst snd] in Hf, Ha. subst fs2.
  destruct r1 as [[t1 v1]|], r2 as [[t2 v2]|]; cbn in Ha; try contradiction.
  - exists (fst (frame_loop t2 rest0 v2)). cbn [fst snd].
    split; [reflexivity|]. split; [discriminate|].
    intros Heq. rewrite <- Heq in Hr.
    rewrite <- (app_nil_r (range (duration c * fps c))) in Hr at 1.
    apply app_inv_head in Hr. subst rest0. cbn. split; reflexivity.
  - exists []. cbn [fst snd]. rewrite app_nil_r. repeat split.
Qed.

End Timing.

(* ================================================================== *)
(** * The command-line layer *)
(* ================================================================== *)

(** A Python [str]: its code points. *)
Definition str := list N.

Bind Scope string_scope with String.string.

(** The [str] of an ASCII literal. *)
Definition lit (s : String.string) : str :=
  map Ascii.N_of_ascii (String.list_ascii_of_string s).

Definition str_eqb (a b : str) : bool :=
  if list_eq_dec N.eq_dec a b then true else false.

Lemma str_eqb_eq (a b : str) : str_eqb a b = true <-> a = b.
Proof.
  unfold str_eqb. destruct (list_eq_dec N.eq_dec a b); split; intros H;
    congruence.
Qed.

(** [x in xs] for a list of strings. *)
Definition str_in (x : str) (xs : list str) : bool := existsb (str_eqb x) xs.

(** ** [parse_dimensions] *)

Section ParseDimensions.

(** [char.isdigit()] and [int(s)] on a string: the Unicode tables and the
    numeral parser of the interpreter. *)
Variable isdigit : N -> bool.
Variable int_of_str : str -> option Z.

(** The loop of [parse_dimensions]: the index of the first character that
    is not a digit, counted from [i]. *)
Fixpoint find_separator (s : str) (i : nat) : option nat :=
  match s with
  | [] => None
  | c :: s' => if negb (isdigit c) then Some i else find_separator s' (S i)
  end.

(** [parse_dimensions]; [None] stands for its [ValueError]s, those of
    [int] included. *)
Definition parse_dimensions (dim_str : str) : option (Z * Z) :=
  match find_separator dim_str 0 with
  | None => None
  | Some separator_idx =>
      width <-? int_of_str (firstn separator_idx dim_str) ;;
      height <-? int_of_str (skipn (separator_idx + 1) dim_str) ;;
      if (width <=? 0) || (height <=? 0) then None
      else Some (width, height)
  end.

Lemma find_separator_Some (s : str) (i k : nat) :
  find_separator s i = Some k ->
  exists pre c post,
    s = pre ++ c :: post /\ k = (i + length pre)%nat /\
    forallb isdigit pre = true /\ isdigit c = false.
Proof.
  revert i. induction s as [|c s IH]; intros i H; cbn in H; [discriminate|].
  destruct (isdigit c) eqn:D; cbn in H.
  - destruct (IH _ H) as (pre & c' & post & -> & -> & Hpre & Hc).
    exists (c :: pre), c', post. cbn. rewrite D, Hpre.
    repeat split; try assumption. lia.
  - inversion H; subst. exists [], c, s. cbn. repeat split; try assumption. lia.
Qed.

Lemma find_separator_split (pre post : str) (c : N) (i : nat) :
  forallb isdigit pre = true -> isdigit c = false ->
  find_separator (pre ++ c :: post) i = Some (i + length pre)%nat.
Proof.
  revert i. induction pre as [|d pre IH]; intros i Hpre Hc; cbn in *.
  - rewrite Hc. cbn. f_equal. lia.
  - apply andb_prop in Hpre. destruct Hpre as [Hd Hpre]. rewrite Hd. cbn.
    rewrite IH by assumption. f_equal. lia.
Qed.

Lemma find_separator_None (s : str) (i : nat) :
  find_separator s i = None <-> forallb isdigit s = true.
Proof.
  revert i. induction s as [|c s IH]; intros i; cbn; [tauto|].
  destruct (isdigit c); cbn; [apply IH|]. split; discriminate.
Qed.

(** X4: [parse_dimensions] returns [(w, h)] exactly when the string is a run
    of digits, one character that is not a digit, and a rest, such that
    [int] reads [w > 0] from the run and [h > 0] from the rest; it raises
    on every string that has no such character, the empty one included. *)
Theorem parse_dimensions_spec (dim_str : str) (w h : Z) :
  (parse_dimensions dim_str = Some (w, h) <->
   exists pre c post,
     dim_str = pre ++ c :: post /\
     forallb isdigit pre = true /\ isdigit c = false /\
     int_of_str pre = Some w /\ int_of_str post = Some h /\
     0 < w /\ 0 < h) /\
  (forallb isdigit dim_str = true -> parse_dimensions dim_str = None).
Proof.
  split; [split|].
  - unfold parse_dimensions. intros H.
    destruct (find_separator dim_str 0) as [k|] eqn:F; [|discriminate].
    destruct (find_separator_Some _ _ _ F) as (pre & c & post & -> & -> & Hp & Hc).
    cbn [Nat.add] in H.
    rewrite firstn_app, firstn_all, Nat.sub_diag, firstn_O, app_nil_r in H.
    replace (length pre + 1)%nat with (length (pre ++ [c]))
      in H by (rewrite length_app; reflexivity).
    replace (pre ++ c :: post) with ((pre ++ [c]) ++ post)
      in H by (rewrite <- app_assoc; reflexivity).
    rewrite skipn_app, skipn_all, Nat.sub_diag, skipn_O in H. cbn [app] in H.
    apply obind_Some in H. destruct H as (w0 & Hw & H).
    apply obind_Some in H. destruct H as (h0 & Hh & H).
    destruct ((w0 <=? 0) || (h0 <=? 0)) eqn:D; [discriminate|].
    inversion H; subst. apply orb_false_elim in D. destruct D as [D1 D2].
    apply Z.leb_gt in D1. apply Z.leb_gt in D2.
    exists pre, c, post. repeat split; assumption.
  - intros (pre & c & post & -> & Hp & Hc & Hw & Hh & Pw & Ph).
    unfold parse_dimensions.
    rewrite (find_separator_split pre post c 0 Hp Hc). cbn [Nat.add].
    rewrite firstn_app, firstn_all, Nat.sub_diag, firstn_O, app_nil_r.
    replace (length pre + 1)%nat with (length (pre ++ [c]))
      by (rewrite length_app; reflexivity).
    replace (pre ++ c :: post) with ((pre ++ [c]) ++ post)
      by (rewrite <- app_assoc; reflexivity).
    rewrite skipn_app, skipn_all, Nat.sub_diag, skipn_O. cbn [app].
    rewrite Hw, Hh. cbn [obind].
    destruct (Z.leb_spec w 0); [lia|]. destruct (Z.leb_spec h 0); [lia|].
    reflexivity.
  - intros Hd. unfold parse_dimensions.
    rewrite (proj2 (find_separator_None dim_str 0) Hd). reflexivity.
Qed.

End ParseDimensions.

(** ** [validate_codec] and the codec selection of [generate] *)

Definition valid_codecs : list str :=
  [lit "mp4v"; lit "XVID"; lit "MJPG"; lit "X264"; lit "DIVX"; lit "WMV1"; lit "WMV2"; lit "FMP4"; lit "H264"].

(** A dictionary with string keys, in insertion order. *)
Definition dict (V : Type) := list (str * V).

(** [d.get(k)] *)
Fixpoint dict_get {V} (d : dict V) (k : str) : option V :=
  match d with
  | [] => None
  | (k', v) :: d' => if str_eqb k k' then Some v else dict_get d' k
  end.

(** [d[k] = v]: the value of an existing key is replaced where it stands, a
    new key goes last. *)
Fixpoint dict_set {V} (d : dict V) (k : str) (v : V) : dict V :=
  match d with
  | [] => [(k, v)]
  | (k', v') :: d' =>
      if str_eqb k k' then (k', v) :: d' else (k', v') :: dict_set d' k v
  end.

Definition codec_to_ext : dict str :=
  [(lit "mp4v", lit ".mp4"); (lit "X264", lit ".mp4");
   (lit "H264", lit ".mp4"); (lit "FMP4", lit ".mp4");
   (lit "XVID", lit ".avi"); (lit "DIVX", lit ".avi");
   (lit "MJPG", lit ".avi");
   (lit "WMV1", lit ".wmv"); (lit "WMV2", lit ".wmv")].

Definition compatible_codecs : dict (list str) :=
  [(lit ".mp4", [lit "mp4v"; lit "X264"; lit "H264"; lit "FMP4"]);
   (lit ".avi", [lit "XVID"; lit "DIVX"; lit "MJPG"]);
   (lit ".wmv", [lit "WMV1"; lit "WMV2"]);
   (lit ".mov", [lit "mp4v"; lit "MJPG"])].

(** The table of [generate] from extensions to codecs. *)
Definition codec_map : dict str :=
  [(lit ".mp4", lit "mp4v"); (lit ".avi", lit "XVID");
   (lit ".wmv", lit "WMV2"); (lit ".mov", lit "MJPG")].

Section Codecs.

(** [Path(f).suffix.lower()] and [str(Path(f).with_suffix(ext))], the
    latter raising on a path without a name. *)
Variable suffix_lower : str -> str.
Variable with_suffix : str -> str -> option str.

(** The loop of [validate_codec] over the compatibility table. *)
Definition is_compatible (current_ext codec : str) : bool :=
  existsb (fun entry => str_eqb current_ext (fst entry)
                        && str_in codec (snd entry))
          compatible_codecs.

(** [validate_codec]; [None] stands for a raised exception. *)
Definition validate_codec (codec filename : str) : option (str * str) :=
  if negb (str_in codec valid_codecs) then None
  else
    let current_ext := suffix_lower filename in
    if negb (is_compatible current_ext codec) then
      new_ext <-? dict_get codec_to_ext codec ;;
      new_filepath <-? with_suffix filename new_ext ;;
      Some (codec, new_filepath)
    else Some (codec, filename).

(** The head of [generate]: the four-character code and the output path. *)
Definition select_codec (codec : option str) (output_path : str)
    : option (str * str) :=
  match codec with
  | Some (c :: cs) => Some (c :: cs, output_path)
  | _ =>
      let ext := suffix_lower output_path in
      let fourcc_code :=
        match dict_get codec_map ext with
        | Some c => c
        | None => lit "mp4v"
        end in
      match dict_get codec_map ext with
      | Some _ => Some (fourcc_code, output_path)
      | None =>
          output_path <-? with_suffix output_path (lit ".mp4") ;;
          Some (fourcc_code, output_path)
      end
  end.

(** Every valid codec has a preferred extension, is compatible with it, and
    is four characters long. *)
Definition codec_tables_check : bool :=
  forallb (fun codec =>
             match dict_get codec_to_ext codec with
             | Some ext => is_compatible ext codec
             | None => false
             end && (length codec =? 4)%nat)
          valid_codecs.

Lemma codec_tables_consistent : codec_tables_check = true.
Proof. vm_compute. reflexivity. Qed.

Lemma str_in_In (x : str) (xs : list str) : str_in x xs = true <-> In x xs.
Proof.
  unfold str_in. rewrite existsb_exists. split.
  - intros (y & Hy & E). apply str_eqb_eq in E. subst. exact Hy.
  - intros H. exists x. split; [exact H|]. apply str_eqb_eq. reflexivity.
Qed.

Lemma valid_codec_entry (codec : str) :
  str_in codec valid_codecs = true ->
  exists ext, dict_get codec_to_ext codec = Some ext /\
              is_compatible ext codec = true /\ length codec = 4%nat.
Proof.
  intros H. apply str_in_In in H.
  pose proof codec_tables_consistent as C. unfold codec_tables_check in C.
  rewrite forallb_forall in C. specialize (C codec H).
  apply andb_prop in C. destruct C as [C1 C2].
  destruct (dict_get codec_to_ext codec) as [ext|]; [|discriminate].
  exists ext. repeat split; [exact C1|]. apply Nat.eqb_eq, C2.
Qed.

(** X5: [validate_codec] raises on a codec outside the list of nine and
    never for want of a table entry; it returns the codec it was given,
    which has four characters, and either the file name unchanged, its
    extension being compatible, or the name with the codec's preferred
    extension, with which the codec is compatible. *)
Theorem validate_codec_spec (codec filename : str) :
  (str_in codec valid_codecs = false -> validate_codec codec filename = None) /\
  (str_in codec valid_codecs = true ->
   exists ext,
     dict_get codec_to_ext codec = Some ext /\
     is_compatible ext codec = true /\
     length codec = 4%nat /\
     validate_codec codec filename =
       if is_compatible (suffix_lower filename) codec
       then Some (codec, filename)
       else match with_suffix filename ext with
            | Some renamed => Some (codec, renamed)
            | None => None
            end).
Proof.
  split.
  - intros H. unfold validate_codec. rewrite H. reflexivity.
  - intros H. destruct (valid_codec_entry codec H) as (ext & E1 & E2 & E3).
    exists ext. repeat split; try assumption.
    unfold validate_codec. rewrite H, E1. cbn [negb obind].
    destruct (is_compatible (suffix_lower filename) codec); cbn [negb];
      [reflexivity|].
    destruct (with_suffix filename ext); reflexivity.
Qed.

(** X6: validating twice changes nothing more: when the renamed file has
    the extension it was given, a second call returns its arguments. *)
Theorem validate_codec_idempotent (codec filename codec' filename' : str) :
  (forall ext renamed,
      dict_get codec_to_ext codec = Some ext ->
      with_suffix filename ext = Some renamed ->
      suffix_lower renamed = ext) ->
  validate_codec codec filename = Some (codec', filename') ->
  validate_codec codec' filename' = Some (codec', filename').
Proof.
  intros Hlaw H. unfold validate_codec in H.
  destruct (str_in codec valid_codecs) eqn:V; cbn [negb] in H; [|discriminate].
  destruct (valid_codec_entry codec V) as (ext & E1 & E2 & _).
  destruct (is_compatible (suffix_lower filename) codec) eqn:C; cbn [negb] in H.
  - inversion H; subst. unfold validate_codec. rewrite V, C. reflexivity.
  - rewrite E1 in H. cbn [obind] in H.
    destruct (with_suffix filename ext) as [f'|] eqn:W; [|discriminate].
    cbn [obind] in H. inversion H; subst.
    unfold validate_codec. rewrite V, (Hlaw _ _ E1 W), E2. reflexivity.
Qed.

(** The codec [generate] picks for an extension of its table is valid and
    compatible with that extension. *)
Definition codec_map_check : bool :=
  forallb (fun entry => str_in (snd entry) valid_codecs
                        && is_compatible (fst entry) (snd entry))
          codec_map
  && str_in (lit "mp4v") valid_codecs
  && is_compatible (lit ".mp4") (lit "mp4v").

Lemma codec_map_consistent : codec_map_check = true.
Proof. vm_compute. reflexivity. Qed.

Lemma dict_get_In {V} (d : dict V) (k : str) (v : V) :
  dict_get d k = Some v -> In (k, v) d.
Proof.
  induction d as [|[k' v'] d IH]; cbn; [discriminate|].
  destruct (str_eqb k k') eqn:E.
  - apply str_eqb_eq in E. subst. intros H. inversion H. left. reflexivity.
  - intros H. right. apply IH, H.
Qed.

(** X7: without a forced codec, [generate] picks a codec from the list of
    nine; it keeps the path when its extension is one of its table, and the
    codec is then compatible with it by the table of [validate_codec];
    otherwise it picks mp4v and renames the file to .mp4. *)
Theorem select_codec_auto (output_path : str) :
  match dict_get codec_map (suffix_lower output_path) with
  | Some c =>
      select_codec None output_path = Some (c, output_path) /\
      str_in c valid_codecs = true /\
      is_compatible (suffix_lower output_path) c = true
  | None =>
      select_codec None output_path =
        match with_suffix output_path (lit ".mp4") with
        | Some renamed => Some (lit "mp4v", renamed)
        | None => None
        end /\
      is_compatible (lit ".mp4") (lit "mp4v") = true
  end.
Proof.
  pose proof codec_map_consistent as C. unfold codec_map_check in C.
  apply andb_prop in C. destruct C as [C C3].
  apply andb_prop in C. destruct C as [C1 C2].
  unfold select_codec.
  destruct (dict_get codec_map (suffix_lower output_path)) as [c|] eqn:G.
  - rewrite forallb_forall in C1. specialize (C1 _ (dict_get_In _ _ _ G)).
    apply andb_prop in C1. destruct C1 as [V K]. cbn [fst snd] in V, K.
    repeat split; assumption.
  - split; [|exact C3].
    destruct (with_suffix output_path (lit ".mp4")); reflexivity.
Qed.

End Codecs.

(** ** [parse_metadata] and dictionaries *)

(** The code point of the colon. *)
Definition colon : N := 58%N.

(** [meta.split(':', 1)] when [':' in meta]: the text before the first
    colon and the text after it. *)
Fixpoint split_colon (meta : str) : option (str * str) :=
  match meta with
  | [] => None
  | c :: rest =>
      if N.eqb c colon then Some ([], rest)
      else match split_colon rest with
           | Some (key, value) => Some (c :: key, value)
           | None => None
           end
  end.

Definition parse_metadata (meta_list : list str) : dict str :=
  fold_left (fun metadata meta =>
               match split_colon meta with
               | Some (key, value) => dict_set metadata key value
               | None => metadata
               end) meta_list [].

(** [d.update(other)] *)
Definition dict_update {V} (d other : dict V) : dict V :=
  fold_left (fun d kv => dict_set d (fst kv) (snd kv)) other d.

Section Dictionaries.
Context {V : Type}.

Lemma str_eqb_refl (k : str) : str_eqb k k = true.
Proof. apply str_eqb_eq. reflexivity. Qed.

Lemma str_eqb_neq (k k' : str) : k <> k' -> str_eqb k k' = false.
Proof.
  intros H. destruct (str_eqb k k') eqn:E; [|reflexivity].
  apply str_eqb_eq in E. contradiction.
Qed.

(** Reading after writing. *)
Lemma dict_get_set (d : dict V) (k k' : str) (v : V) :
  dict_get (dict_set d k v) k' =
  if str_eqb k' k then Some v else dict_get d k'.
Proof.
  induction d as [|[k0 v0] d IH]; cbn.
  - destruct (str_eqb k' k); reflexivity.
  - destruct (str_eqb k k0) eqn:E; cbn.
    + apply str_eqb_eq in E. subst k0.
      destruct (str_eqb k' k); reflexivity.
    + destruct (str_eqb k' k0) eqn:E'.
      * apply str_eqb_eq in E'. subst k0.
        destruct (str_eqb k' k) eqn:E''; [|reflexivity].
        apply str_eqb_eq in E''. subst.
        rewrite str_eqb_refl in E. discriminate.
      * exact IH.
Qed.

Lemma dict_set_keys (d : dict V) (k : str) (v : V) :
  map fst (dict_set d k v) =
  if str_in k (map fst d) then map fst d else map fst d ++ [k].
Proof.
  induction d as [|[k0 v0] d IH]; cbn; [reflexivity|].
  destruct (str_eqb k k0) eqn:E; cbn.
  - apply str_eqb_eq in E. subst. reflexivity.
  - rewrite IH. unfold str_in.
    destruct (existsb (str_eqb k) (map fst d)); reflexivity.
Qed.

Lemma dict_set_NoDup (d : dict V) (k : str) (v : V) :
  NoDup (map fst d) -> NoDup (map fst (dict_set d k v)).
Proof.
  intros H. rewrite dict_set_keys.
  destruct (str_in k (map fst d)) eqn:E; [exact H|].
  apply NoDup_app; [exact H|repeat constructor; intros []|].
  intros x Hx [Hk|[]]. subst.
  apply str_in_In in Hx. congruence.
Qed.

(** The last value [other] gives to [k]. *)
Definition last_binding (other : dict V) (k : str) : option V :=
  fold_left (fun acc kv => if str_eqb k (fst kv) then Some (snd kv) else acc)
            other None.

Lemma dict_get_update_gen (other d : dict V) (k : str) (acc : option V) :
  dict_get d k = match acc with Some v => Some v | None => dict_get d k end ->
  dict_get (dict_update d other) k =
  match fold_left (fun acc kv =>
                     if str_eqb k (fst kv) then Some (snd kv) else acc)
                  other acc with
  | Some v => Some v
  | None => dict_get d k
  end.
Proof.
  revert d acc. induction other as [|[k0 v0] other IH]; intros d acc H; cbn.
  - exact H.
  - unfold dict_update in *. cbn [fold_left fst snd].
    destruct (str_eqb k k0) eqn:E.
    + rewrite (IH (dict_set d k0 v0) (Some v0)).
      * destruct (fold_left _ other (Some v0)) eqn:F; [reflexivity|].
        rewrite dict_get_set, E. 
        exfalso. revert F. clear. revert v0.
        induction other as [|kv other IH]; intros v0 F; cbn in F;
          [discriminate|].
        destruct (str_eqb k (fst kv)); eapply IH; exact F.
      * rewrite dict_get_set, E. reflexivity.
    + rewrite (IH (dict_set d k0 v0) acc).
      * rewrite dict_get_set, E. reflexivity.
      * rewrite dict_get_set, E. exact H.
Qed.

(** Reading after an update: the last binding of the update, else the
    binding the dictionary had. *)
Lemma dict_get_update (d other : dict V) (k : str) :
  dict_get (dict_update d other) k =
  match last_binding other k with
  | Some v => Some v
  | None => dict_get d k
  end.
Proof. apply (dict_get_update_gen other d k None). reflexivity. Qed.

Lemma dict_update_NoDup (d other : dict V) :
  NoDup (map fst d) -> NoDup (map fst (dict_update d other)).
Proof.
  revert d. induction other as [|[k v] other IH]; intros d H; cbn;
    [exact H|].
  apply IH, dict_set_NoDup, H.
Qed.

End Dictionaries.

Section ParseMetadata.

Lemma split_colon_app (key value : str) :
  ~ In colon key -> split_colon (key ++ colon :: value) = Some (key, value).
Proof.
  induction key as [|c key IH]; intros H; cbn.
  - reflexivity.
  - destruct (N.eqb c colon) eqn:E.
    + apply N.eqb_eq in E. exfalso. apply H. left. exact E.
    + rewrite IH; [reflexivity|]. intros F. apply H. right. exact F.
Qed.

Lemma split_colon_Some (meta key value : str) :
  split_colon meta = Some (key, value) ->
  meta = key ++ colon :: value /\ ~ In colon key.
Proof.
  revert key. induction meta as [|c meta IH]; intros key H; cbn in H.
  - discriminate.
  - destruct (N.eqb c colon) eqn:E.
    + apply N.eqb_eq in E. inversion H. subst. split; [reflexivity|].
      intros [].
    + destruct (split_colon meta) as [[k v]|]; [|discriminate].
      inversion H. subst. destruct (IH k eq_refl) as [-> F].
      split; [reflexivity|]. intros [G|G]; [|exact (F G)].
      subst c. rewrite N.eqb_refl in E. discriminate.
Qed.

Lemma split_colon_None (meta : str) :
  split_colon meta = None <-> ~ In colon meta.
Proof.
  induction meta as [|c meta IH]; cbn.
  - split; [intros _ []|reflexivity].
  - destruct (N.eqb c colon) eqn:E.
    + apply N.eqb_eq in E. split; [discriminate|].
      intros H. exfalso. apply H. left. exact E.
    + destruct (split_colon meta) as [[k v]|].
      * split; [discriminate|]. intros H. exfalso.
        assert (G : ~ In colon meta) by (intros G; apply H; right; exact G).
        apply IH in G. discriminate.
      * split; [|reflexivity]. intros _ [G|G].
        -- subst c. rewrite N.eqb_refl in E. discriminate.
        -- destruct IH as [IH _]. exact (IH eq_refl G).
Qed.

(** The [KEY:VALUE] pairs of the entries that hold a colon, in order. *)
Definition entries (meta_list : list str) : dict str :=
  flat_map (fun meta => match split_colon meta with
                        | Some kv => [kv]
                        | None => []
                        end) meta_list.

Lemma parse_metadata_from (meta_list : list str) (d : dict str) :
  fold_left (fun metadata meta =>
               match split_colon meta with
               | Some (key, value) => dict_set metadata key value
               | None => metadata
               end) meta_list d = dict_update d (entries meta_list).
Proof.
  revert d. induction meta_list as [|meta l IH]; intros d; cbn.
  - reflexivity.
  - rewrite IH. destruct (split_colon meta) as [[k v]|]; reflexivity.
Qed.

Lemma last_binding_acc {V} (other : dict V) (k : str) (acc : option V) :
  fold_left (fun acc kv => if str_eqb k (fst kv) then Some (snd kv) else acc)
            other acc =
  match last_binding other k with Some v => Some v | None => acc end.
Proof.
  unfold last_binding. revert acc.
  induction other as [|[k0 v0] other IH]; intros acc; cbn.
  - reflexivity.
  - destruct (str_eqb k k0).
    + rewrite (IH (Some v0)).
      destruct (fold_left _ other None); reflexivity.
    + rewrite (IH acc), (IH None).
      destruct (fold_left _ other None); reflexivity.
Qed.

Lemma last_binding_app {V} (a b : dict V) (k : str) :
  last_binding (a ++ b) k =
  match last_binding b k with Some v => Some v | None => last_binding a k end.
Proof.
  unfold last_binding at 1. rewrite fold_left_app.
  apply last_binding_acc.
Qed.

Lemma last_binding_absent {V} (other : dict V) (k : str) :
  ~ In k (map fst other) -> last_binding other k = None.
Proof.
  induction other as [|[k0 v0] other IH]; intros H; [reflexivity|].
  change ((k0, v0) :: other) with ([(k0, v0)] ++ other).
  rewrite last_binding_app, IH.
  - unfold last_binding. cbn. rewrite str_eqb_neq; [reflexivity|].
    intros ->. apply H. left. reflexivity.
  - intros F. apply H. right. exact F.
Qed.

Lemma entries_app (a b : list str) : entries (a ++ b) = entries a ++ entries b.
Proof. apply flat_map_app. Qed.

Lemma entries_keys (meta_list : list str) (key : str) :
  In key (map fst (entries meta_list)) ->
  exists value, In (key ++ colon :: value) meta_list /\ ~ In colon key.
Proof.
  induction meta_list as [|meta l IH]; cbn; [intros []|].
  rewrite map_app, in_app_iff. intros [H|H].
  - destruct (split_colon meta) as [[k v]|] eqn:E; [|destruct H].
    destruct H as [H|[]]. cbn in H. subst k.
    apply split_colon_Some in E. destruct E as [-> F].
    exists v. split; [left; reflexivity|exact F].
  - destruct (IH H) as [v [G F]]. exists v. split; [right; exact G|exact F].
Qed.

Lemma dict_update_keys {V} (other d : dict V) (k : str) :
  In k (map fst (dict_update d other)) ->
  In k (map fst d) \/ In k (map fst other).
Proof.
  revert d. induction other as [|[k0 v0] other IH]; intros d H; cbn in *.
  - left. exact H.
  - apply IH in H. destruct H as [H|H]; [|right; right; exact H].
    rewrite dict_set_keys in H.
    destruct (str_in k0 (map fst d)); [left; exact H|].
    apply in_app_iff in H. destruct H as [H|[H|[]]]; [left; exact H|].
    right. left. exact H.
Qed.

(** X8: [parse_metadata]: an entry [KEY:VALUE] is split at its first colon,
    so the key holds no colon and the value is all that follows, further
    colons included; of several entries with one key the last one is kept;
    a key no entry names is absent, so entries without a colon leave the
    dictionary as it is; every key of the result comes from an entry and
    appears once. *)
Theorem parse_metadata_spec (meta_list : list str) :
  (forall before after key value,
      meta_list = before ++ (key ++ colon :: value) :: after ->
      ~ In colon key ->
      (forall value', ~ In (key ++ colon :: value') after) ->
      dict_get (parse_metadata meta_list) key = Some value) /\
  (forall key,
      (forall value, ~ In (key ++ colon :: value) meta_list) ->
      dict_get (parse_metadata meta_list) key = None) /\
  (forall key,
      In key (map fst (parse_metadata meta_list)) ->
      ~ In colon key /\ exists value, In (key ++ colon :: value) meta_list) /\
  NoDup (map fst (parse_metadata meta_list)).
Proof.
  unfold parse_metadata. rewrite parse_metadata_from.
  assert (absent : forall l key,
             (forall value, ~ In (key ++ colon :: value) l) ->
             ~ In key (map fst (entries l))).
  { intros l key H F. apply entries_keys in F.
    destruct F as [v [F _]]. exact (H v F). }
  split; [|split; [|split]].
  - intros before after key value -> Hk Hafter.
    rewrite dict_get_update.
    change ((key ++ colon :: value) :: after)
      with ([key ++ colon :: value] ++ after).
    rewrite !entries_app, !last_binding_app.
    rewrite (last_binding_absent (entries after) key (absent _ _ Hafter)).
    cbn. rewrite (split_colon_app key value Hk).
    unfold last_binding. cbn. rewrite str_eqb_refl. reflexivity.
  - intros key H. rewrite dict_get_update.
    rewrite (last_binding_absent _ _ (absent _ _ H)). reflexivity.
  - intros key H. apply dict_update_keys in H.
    destruct H as [[]|H]. apply entries_keys in H.
    destruct H as [v [G F]]. split; [exact F|exists v; exact G].
  - apply dict_update_NoDup. constructor.
Qed.

End ParseMetadata.

(** ** [main] *)

(** A Python number that is an [int] or a [float]: the clamp of [--phase]
    returns its integer bounds as they are, and [str] prints the two kinds
    differently. *)
Inductive number := Int (n : Z) | Float (x : float).

(** The value a number has in float arithmetic. *)
Definition to_float (v : number) : float :=
  match v with Int n => of_int n | Float x => x end.

(** The namespace [parser.parse_args()] returns. *)
Module Args.
Record t := mk {
  filename : option str; iota : option Z; omicron : option Z;
  phase : option float; threshold : Z; resonance : float; entropy : float;
  dimensions : str; length : Z; fps : Z; codec : option str;
  meta : list str; landscape : bool; portrait : bool;
  resolution : option str; preset_resolution : option str }.
End Args.

(** The truth value of an optional string: [None] and [''] are false. *)
Definition truthy (s : option str) : bool :=
  match s with Some (_ :: _) => true | _ => false end.

Definition text (s : option str) : str :=
  match s with Some s => s | None => [] end.

Definition resolution_sources (a : Args.t) : list str :=
  (if Args.landscape a then [lit "landscape"] else [])
  ++ (if truthy (Args.resolution a)
      then [lit "--resolution=" ++ text (Args.resolution a)] else [])
  ++ (if truthy (Args.preset_resolution a)
      then [lit "--" ++ text (Args.preset_resolution a)] else [])
  ++ (if negb (str_eqb (Args.dimensions a) (lit "640x480"))
      then [lit "--dimensions"] else []).

Definition resolution_presets : dict (Z * Z) :=
  [(lit "QHD", (960, 540)); (lit "XGA", (1024, 768));
   (lit "HD", (1366, 768)); (lit "HDV", (1440, 1080));
   (lit "FHD", (1920, 1080)); (lit "UXGA", (1600, 1200));
   (lit "WQHD", (2560, 1440)); (lit "QVGA", (320, 240))].

(** [max(-1, min(1, phase))]: [min] keeps [1] unless [phase < 1], [max]
    keeps [-1] unless the result is greater. *)
Definition clamp_phase (phase : float) : number :=
  let inner := if float_lt_int phase 1 then Float phase else Int 1 in
  match inner with
  | Int n => if n >? -1 then Int n else Int (-1)
  | Float x => if float_gt_int x (-1) then Float x else Int (-1)
  end.

(** How [main] ends: [return 1], or the call
    [generator.generate(output_path, metadata, args.codec)]. *)
Inductive outcome :=
| Exit (code : Z)
| Generate (generator : Chimerox) (output_path : str)
           (metadata : dict str) (codec : option str).

Section Main.
Context {L : PyLib}.

(** The interpreter's [str.isdigit], [int] on a string, the two [pathlib]
    operations, [random.randint], and [str] on an integer and on a float. *)
Variable isdigit : N -> bool.
Variable int_of_str : str -> option Z.
Variable suffix_lower : str -> str.
Variable with_suffix : str -> str -> option str.
Variable random_randint : Z -> Z -> rng -> Z * rng.
Variable str_of_int : Z -> str.
Variable str_of_float : float -> str.

Definition randint (a b : Z) : M Z :=
  fun w => let d := random_randint a b (py_random w) in
           Some (fst d, {| py_random := snd d; np_random := np_random w |}).

Definition str_of_number (v : number) : str :=
  match v with Int n => str_of_int n | Float x => str_of_float x end.

Definition chimerox_metadata (a : Args.t) (iota omicron : Z) (phase : number)
    (width height : Z) : dict str :=
  [(lit "iota", str_of_int iota);
   (lit "omicron", str_of_int omicron);
   (lit "phase", str_of_number phase);
   (lit "threshold", str_of_int (Args.threshold a));
   (lit "resonance", str_of_float (Args.resonance a));
   (lit "entropy", str_of_float (Args.entropy a));
   (lit "generator", lit "Chimerox");
   (lit "dimensions", str_of_int width ++ lit "x" ++ str_of_int height);
   (lit "fps", str_of_int (Args.fps a));
   (lit "duration", str_of_int (Args.length a))].

(** [main] after the parsing of the command line, up to its last call.
    An integer phase enters the generator's arithmetic as the float of the
    same value.  [None] stands for a raised exception. *)
Definition main (a : Args.t) : M outcome :=
  if negb (truthy (Args.filename a)) then ret (Exit 1)
  else
    let non_portrait_sources :=
      filter (fun s => negb (str_eqb s (lit "portrait")))
             (resolution_sources a) in
    if 1 <? Z.of_nat (length non_portrait_sources) then ret (Exit 1)
    else
      ' (width, height) <- lift
        (if Args.landscape a then Some (960, 540)
         else if truthy (Args.resolution a)
         then dict_get resolution_presets (text (Args.resolution a))
         else if truthy (Args.preset_resolution a)
         then dict_get resolution_presets (text (Args.preset_resolution a))
         else parse_dimensions isdigit int_of_str (Args.dimensions a)) ;;
      let (width, height) :=
        if Args.portrait a then (height, width) else (width, height) in
      iota <- match Args.iota a with
              | None => randint (-16581375) 16581375
              | Some v => ret (Z.max (-16581375) (Z.min 16581375 v))
              end ;;
      omicron <- match Args.omicron a with
                 | None => randint (-604800) 604800
                 | Some v => ret (Z.max (-604800) (Z.min 604800 v))
                 end ;;
      phase <- match Args.phase a with
               | None => x <- uniform_int (-1) 1 ;; ret (Float x)
               | Some x => ret (clamp_phase x)
               end ;;
      if Args.length a <=? 0 then lift None
      else if negb ((1 <=? Args.fps a) && (Args.fps a <=? 200)) then lift None
      else
        ' (codec, filename) <-
          (if truthy (Args.codec a)
           then ' (codec, filename) <- lift
                  (validate_codec suffix_lower with_suffix
                     (text (Args.codec a)) (text (Args.filename a))) ;;
                ret (Some codec, filename)
           else ret (Args.codec a, text (Args.filename a))) ;;
        let metadata := parse_metadata (Args.meta a) in
        generator <- Chimerox_init
          {| iota := iota; omicron := omicron; phase := to_float phase;
             threshold := Args.threshold a; resonance := Args.resonance a;
             entropy := Args.entropy a; width := width; height := height;
             duration := Args.length a; fps := Args.fps a |} ;;
        let output_path := filename in
        let metadata :=
          dict_update metadata
            (chimerox_metadata a iota omicron phase width height) in
        ret (Generate generator output_path metadata codec).


(** The number of resolution options given on the command line. *)
Definition sources_given (a : Args.t) : Z :=
  Z.b2z (Args.landscape a) + Z.b2z (truthy (Args.resolution a))
  + Z.b2z (truthy (Args.preset_resolution a))
  + Z.b2z (negb (str_eqb (Args.dimensions a) (lit "640x480"))).

Lemma filter_all {A} (f : A -> bool) (l : list A) :
  Forall (fun x => f x = true) l -> filter f l = l.
Proof.
  induction 1 as [|x l Hx Hl IH]; cbn; [reflexivity|].
  rewrite Hx, IH. reflexivity.
Qed.

Lemma never_portrait (a : Args.t) :
  Forall (fun s => negb (str_eqb s (lit "portrait")) = true)
         (resolution_sources a).
Proof.
  assert (N : forall s t, s <> t -> negb (str_eqb s t) = true).
  { intros s t H. rewrite (str_eqb_neq s t H). reflexivity. }
  unfold resolution_sources.
  repeat (apply Forall_app; split);
    match goal with
    | |- Forall _ (if ?b then _ else _) => destruct b
    end;
    repeat constructor; apply N; cbn; discriminate.
Qed.

Lemma sources_count (a : Args.t) :
  Z.of_nat (length (filter (fun s => negb (str_eqb s (lit "portrait")))
                           (resolution_sources a))) = sources_given a.
Proof.
  rewrite (filter_all _ _ (never_portrait a)).
  unfold resolution_sources, sources_given.
  destruct (Args.landscape a), (truthy (Args.resolution a)),
    (truthy (Args.preset_resolution a)),
    (negb (str_eqb (Args.dimensions a) (lit "640x480"))); reflexivity.
Qed.

(** The size the resolution options select, before [--portrait]. *)
Definition base_resolution (a : Args.t) : option (Z * Z) :=
  if Args.landscape a then Some (960, 540)
  else if truthy (Args.resolution a)
  then dict_get resolution_presets (text (Args.resolution a))
  else if truthy (Args.preset_resolution a)
  then dict_get resolution_presets (text (Args.preset_resolution a))
  else parse_dimensions isdigit int_of_str (Args.dimensions a).

(** The three seeds as [main] settles them. *)
Definition settle_iota (a : Args.t) : M Z :=
  match Args.iota a with
  | None => randint (-16581375) 16581375
  | Some v => ret (Z.max (-16581375) (Z.min 16581375 v))
  end.

Definition settle_omicron (a : Args.t) : M Z :=
  match Args.omicron a with
  | None => randint (-604800) 604800
  | Some v => ret (Z.max (-604800) (Z.min 604800 v))
  end.

Definition settle_phase (a : Args.t) : M number :=
  match Args.phase a with
  | None => x <- uniform_int (-1) 1 ;; ret (Float x)
  | Some x => ret (clamp_phase x)
  end.

(** The two ways [main] returns. *)
Lemma main_inv (a : Args.t) (w : world) (r : outcome * world) :
  main a w = Some r ->
  (r = (Exit 1, w) /\
   (truthy (Args.filename a) = false \/ 1 < sources_given a)) \/
  (truthy (Args.filename a) = true /\ sources_given a <= 1 /\
   exists bw bh iota omicron phase w1 w2 w3 codec filename generator w',
     base_resolution a = Some (bw, bh) /\
     settle_iota a w = Some (iota, w1) /\
     settle_omicron a w1 = Some (omicron, w2) /\
     settle_phase a w2 = Some (phase, w3) /\
     0 < Args.length a /\ 1 <= Args.fps a <= 200 /\
     (if truthy (Args.codec a)
      then exists c, validate_codec suffix_lower with_suffix
                       (text (Args.codec a)) (text (Args.filename a))
                     = Some (c, filename) /\ codec = Some c
      else codec = Args.codec a /\ filename = text (Args.filename a)) /\
     let width := if Args.portrait a then bh else bw in
     let height := if Args.portrait a then bw else bh in
     Chimerox_init
       {| iota := iota; omicron := omicron; phase := to_float phase;
          threshold := Args.threshold a; resonance := Args.resonance a;
          entropy := Args.entropy a; width := width; height := height;
          duration := Args.length a; fps := Args.fps a |} w3
     = Some (generator, w') /\
     r = (Generate generator filename
            (dict_update (parse_metadata (Args.meta a))
               (chimerox_metadata a iota omicron
                  phase width height))
            codec, w')).
Proof.
  unfold main. intros H.
  destruct (truthy (Args.filename a)) eqn:Ef; cbn [negb] in H.
  2:{ apply ret_Some in H. left. split; [exact H|left; reflexivity]. }
  rewrite sources_count in H.
  destruct (1 <? sources_given a) eqn:Es.
  { apply ret_Some in H. apply Z.ltb_lt in Es.
    left. split; [exact H|right; exact Es]. }
  apply Z.ltb_ge in Es. right. split; [reflexivity|split; [exact Es|]].
  fold (base_resolution a) in H.
  apply bind_Some in H. destruct H as ([bw bh] & w0 & Hb & H).
  apply lift_Some in Hb. destruct Hb as (p & Hb & Hp).
  inversion Hp; subst p w0; clear Hp.
  fold (settle_iota a) (settle_omicron a) (settle_phase a) in H.
  destruct (Args.portrait a) eqn:Ep.
  - apply bind_Some in H. destruct H as (iota & w1 & Hi & H).
    apply bind_Some in H. destruct H as (omicron & w2 & Ho & H).
    apply bind_Some in H. destruct H as (phase & w3 & Hph & H).
    destruct (Args.length a <=? 0) eqn:El; [discriminate|].
    destruct (1 <=? Args.fps a) eqn:E1; [|discriminate].
    destruct (Args.fps a <=? 200) eqn:E2; [|discriminate].
    cbn [andb negb] in H.
    apply Z.leb_gt in El. apply Z.leb_le in E1, E2.
    apply bind_Some in H. destruct H as ([codec filename] & w4 & Hc & H).
    apply bind_Some in H. destruct H as (generator & w' & Hg & H).
    apply ret_Some in H.
    exists bw, bh, iota, omicron, phase, w1, w2, w3, codec, filename,
      generator, w'.
    assert (w4 = w3 /\
            if truthy (Args.codec a)
            then exists c, validate_codec suffix_lower with_suffix
                             (text (Args.codec a)) (text (Args.filename a))
                           = Some (c, filename) /\ codec = Some c
            else codec = Args.codec a /\ filename = text (Args.filename a))
      as [-> Hcodec].
    { destruct (truthy (Args.codec a)).
      - apply bind_Some in Hc. destruct Hc as ([c f] & w5 & Hv & Hc).
        apply lift_Some in Hv. destruct Hv as (p & Hv & Hp).
        inversion Hp; subst p w5; clear Hp.
        apply ret_Some in Hc. inversion Hc; subst.
        split; [reflexivity|]. exists c. split; [exact Hv|reflexivity].
      - apply ret_Some in Hc. inversion Hc; subst.
        split; [reflexivity|split; reflexivity]. }
    repeat split; try assumption.
  - apply bind_Some in H. destruct H as (iota & w1 & Hi & H).
    apply bind_Some in H. destruct H as (omicron & w2 & Ho & H).
    apply bind_Some in H. destruct H as (phase & w3 & Hph & H).
    destruct (Args.length a <=? 0) eqn:El; [discriminate|].
    destruct (1 <=? Args.fps a) eqn:E1; [|discriminate].
    destruct (Args.fps a <=? 200) eqn:E2; [|discriminate].
    cbn [andb negb] in H.
    apply Z.leb_gt in El. apply Z.leb_le in E1, E2.
    apply bind_Some in H. destruct H as ([codec filename] & w4 & Hc & H).
    apply bind_Some in H. destruct H as (generator & w' & Hg & H).
    apply ret_Some in H.
    exists bw, bh, iota, omicron, phase, w1, w2, w3, codec, filename,
      generator, w'.
    assert (w4 = w3 /\
            if truthy (Args.codec a)
            then exists c, validate_codec suffix_lower with_suffix
                             (text (Args.codec a)) (text (Args.filename a))
                           = Some (c, filename) /\ codec = Some c
            else codec = Args.codec a /\ filename = text (Args.filename a))
      as [-> Hcodec].
    { destruct (truthy (Args.codec a)).
      - apply bind_Some in Hc. destruct Hc as ([c f] & w5 & Hv & Hc).
        apply lift_Some in Hv. destruct Hv as (p & Hv & Hp).
        inversion Hp; subst p w5; clear Hp.
        apply ret_Some in Hc. inversion Hc; subst.
        split; [reflexivity|]. exists c. split; [exact Hv|reflexivity].
      - apply ret_Some in Hc. inversion Hc; subst.
        split; [reflexivity|split; reflexivity]. }
    repeat split; try assumption.
Qed.



Lemma presets_positive (name : str) (w h : Z) :
  dict_get resolution_presets name = Some (w, h) -> 0 < w /\ 0 < h.
Proof.
  intros H. apply dict_get_In in H. unfold resolution_presets in H.
  repeat (destruct H as [H|H]; [inversion H; lia|]). destruct H.
Qed.

Lemma parse_dimensions_positive (dim_str : str) (w h : Z) :
  parse_dimensions isdigit int_of_str dim_str = Some (w, h) -> 0 < w /\ 0 < h.
Proof.
  unfold parse_dimensions. intros H.
  destruct (find_separator isdigit dim_str 0); [|discriminate].
  apply obind_Some in H. destruct H as (w0 & _ & H).
  apply obind_Some in H. destruct H as (h0 & _ & H).
  destruct ((w0 <=? 0) || (h0 <=? 0)) eqn:D; [discriminate|].
  inversion H; subst. apply orb_false_elim in D. destruct D as [D1 D2].
  apply Z.leb_gt in D1. apply Z.leb_gt in D2. split; assumption.
Qed.

Lemma base_resolution_positive (a : Args.t) (w h : Z) :
  base_resolution a = Some (w, h) -> 0 < w /\ 0 < h.
Proof.
  unfold base_resolution. intros H.
  destruct (Args.landscape a); [inversion H; lia|].
  destruct (truthy (Args.resolution a)); [exact (presets_positive _ _ _ H)|].
  destruct (truthy (Args.preset_resolution a));
    [exact (presets_positive _ _ _ H)|].
  exact (parse_dimensions_positive _ _ _ H).
Qed.

(** The clamp of [--phase] lies between -1 and 1, whatever the float. *)
Lemma clamp_phase_range (x : float) :
  int_le_float (-1) (to_float (clamp_phase x)) = true /\
  int_ge_float 1 (to_float (clamp_phase x)) = true.
Proof.
  unfold clamp_phase.
  destruct (float_lt_int x 1) eqn:E1.
  - destruct (float_gt_int x (-1)) eqn:E2; cbn [to_float].
    + unfold float_lt_int, int_gt_float in E1.
      unfold float_gt_int, int_lt_float in E2.
      unfold int_le_float, int_ge_float.
      destruct (Zcompare_float (-1) x) as [[| |]|]; try discriminate.
      destruct (Zcompare_float 1 x) as [[| |]|]; try discriminate.
      split; reflexivity.
    + split; reflexivity.
  - split; reflexivity.
Qed.

(** X9: [main] returns 1, drawing nothing, exactly when no file name is given
    or more than one of [--landscape], [--resolution], a preset flag and a
    non-default [--dimensions] is; it returns no other code. *)
Theorem main_exit (a : Args.t) (w w' : world) (code : Z) :
  main a w = Some (Exit code, w') <->
  code = 1 /\ w' = w /\
  (truthy (Args.filename a) = false \/
   1 < Z.b2z (Args.landscape a) + Z.b2z (truthy (Args.resolution a))
       + Z.b2z (truthy (Args.preset_resolution a))
       + Z.b2z (negb (str_eqb (Args.dimensions a) (lit "640x480")))).
Proof.
  fold (sources_given a). split.
  - intros H. apply main_inv in H. destruct H as [[H C]|H].
    + inversion H; subst. repeat split. exact C.
    + destruct H as (_ & _ & bw & bh & i & o & p & w1 & w2 & w3 & c & f
                     & g & w4 & H).
      destruct H as (_ & _ & _ & _ & _ & _ & _ & _ & H). discriminate.
  - intros (-> & -> & C). unfold main.
    destruct (truthy (Args.filename a)) eqn:Ef; cbn [negb]; [|reflexivity].
    destruct C as [C|C]; [discriminate|].
    rewrite sources_count. apply Z.ltb_lt in C. rewrite C. reflexivity.
Qed.

(** X10: when [main] reaches [generate], the generator has a positive width,
    height and duration, a frame rate from 1 to 200 and so at least one
    frame; a given [--iota] or [--omicron] has been brought into its range
    and a given [--phase], not-a-number included, into -1 .. 1. *)
Theorem main_validated (a : Args.t) (w w' : world) (generator : Chimerox)
    (output_path : str) (metadata : dict str) (codec : option str) :
  main a w = Some (Generate generator output_path metadata codec, w') ->
  0 < width generator /\ 0 < height generator /\
  0 < duration generator /\ 1 <= fps generator <= 200 /\
  0 < total_frames generator /\
  (Args.iota a <> None -> -16581375 <= iota generator <= 16581375) /\
  (Args.omicron a <> None -> -604800 <= omicron generator <= 604800) /\
  (Args.phase a <> None ->
   int_le_float (-1) (phase generator) = true /\
   int_ge_float 1 (phase generator) = true).
Proof.
  intros H. apply main_inv in H. destruct H as [[H _]|H]; [discriminate|].
  destruct H as (_ & _ & bw & bh & i & o & p & w1 & w2 & w3 & c & f
                 & g & w4 & Hb & Hi & Ho & Hp & Hl & Hf & _ & Hg & H).
  inversion H; subst; clear H.
  apply Chimerox_init_attrs in Hg. destruct Hg as (Ha & Ht & _).
  rewrite Ht, Ha. cbn [width height duration fps iota omicron phase].
  apply base_resolution_positive in Hb. destruct Hb as [Pw Ph].
  repeat split; try lia.
  - destruct (Args.portrait a); assumption.
  - destruct (Args.portrait a); assumption.
  - unfold settle_iota in Hi. destruct (Args.iota a); [|congruence].
    apply ret_Some in Hi. inversion Hi. lia.
  - unfold settle_iota in Hi. destruct (Args.iota a); [|congruence].
    apply ret_Some in Hi. inversion Hi. lia.
  - unfold settle_omicron in Ho. destruct (Args.omicron a); [|congruence].
    apply ret_Some in Ho. inversion Ho. lia.
  - unfold settle_omicron in Ho. destruct (Args.omicron a); [|congruence].
    apply ret_Some in Ho. inversion Ho. lia.
  - unfold settle_phase in Hp. destruct (Args.phase a) as [x|]; [|congruence].
    apply ret_Some in Hp. inversion Hp. apply clamp_phase_range.
  - unfold settle_phase in Hp. destruct (Args.phase a) as [x|]; [|congruence].
    apply ret_Some in Hp. inversion Hp. apply clamp_phase_range.
Qed.

(** The keys [main] writes itself. *)
Definition reserved_keys : list str :=
  [lit "iota"; lit "omicron"; lit "phase"; lit "threshold"; lit "resonance";
   lit "entropy"; lit "generator"; lit "dimensions"; lit "fps";
   lit "duration"].

(** X11: the metadata [main] hands to [generate]: under its own ten keys the
    values of the run (the phase as settled: the clamp of a given one, which
    may be the integer 1 or -1, or the float drawn), whatever the user gave
    for them with [--meta]; under
    every other key what [parse_metadata] made of the user's entries; each
    key once. *)
Theorem main_metadata (a : Args.t) (w w' : world) (generator : Chimerox)
    (output_path : str) (metadata : dict str) (codec : option str) :
  main a w = Some (Generate generator output_path metadata codec, w') ->
  dict_get metadata (lit "generator") = Some (lit "Chimerox") /\
  dict_get metadata (lit "iota") = Some (str_of_int (iota generator)) /\
  dict_get metadata (lit "omicron") = Some (str_of_int (omicron generator)) /\
  dict_get metadata (lit "threshold")
    = Some (str_of_int (threshold generator)) /\
  dict_get metadata (lit "resonance")
    = Some (str_of_float (resonance generator)) /\
  dict_get metadata (lit "entropy")
    = Some (str_of_float (entropy generator)) /\
  dict_get metadata (lit "dimensions")
    = Some (str_of_int (width generator) ++ lit "x"
            ++ str_of_int (height generator)) /\
  dict_get metadata (lit "fps") = Some (str_of_int (fps generator)) /\
  dict_get metadata (lit "duration")
    = Some (str_of_int (duration generator)) /\
  (exists p,
      dict_get metadata (lit "phase") = Some (str_of_number p) /\
      phase generator = to_float p /\
      match Args.phase a with
      | Some x => p = clamp_phase x
      | None => p = Float (phase generator)
      end) /\
  (forall key, str_in key reserved_keys = false ->
     dict_get metadata key = dict_get (parse_metadata (Args.meta a)) key) /\
  NoDup (map fst metadata).
Proof.
  intros H. apply main_inv in H. destruct H as [[H _]|H]; [discriminate|].
  destruct H as (_ & _ & bw & bh & i & o & p & w1 & w2 & w3 & c & f
                 & g & w4 & _ & _ & _ & Hph & _ & _ & _ & Hg & H).
  remember (dict_update (parse_metadata (Args.meta a)) _) as md eqn:Em in H.
  inversion H; subst generator output_path metadata codec w'; clear H.
  rewrite Em; clear Em md.
  apply Chimerox_init_attrs in Hg. destruct Hg as (Ha & _).
  rewrite Ha. cbn [width height duration fps iota omicron threshold
                   resonance entropy].
  repeat match goal with
         | |- _ /\ _ => split
         end;
    try (rewrite dict_get_update; reflexivity).
  - exists p. split; [rewrite dict_get_update; reflexivity|].
    split; [reflexivity|]. unfold settle_phase in Hph.
    destruct (Args.phase a) as [x|].
    + apply ret_Some in Hph. inversion Hph. reflexivity.
    + apply bind_Some in Hph. destruct Hph as (x & w5 & _ & Hph).
      apply ret_Some in Hph. inversion Hph. reflexivity.
  - intros key Hk. rewrite dict_get_update, last_binding_absent; [reflexivity|].
    intros F. apply str_in_In in F.
    change (map fst (chimerox_metadata a i o p
                       (if Args.portrait a then bh else bw)
                       (if Args.portrait a then bw else bh)))
      with reserved_keys in F.
    congruence.
  - apply dict_update_NoDup.
    destruct (parse_metadata_spec (Args.meta a)) as (_ & _ & _ & N).
    exact N.
Qed.

(** X12: when [main] reaches [generate], exactly one source fixed the size: the
    [--landscape] flag, one preset name, or the [--dimensions] string,
    default included, and no other was given; [--portrait] exchanges width
    and height. *)
Theorem main_resolution (a : Args.t) (w w' : world) (generator : Chimerox)
    (output_path : str) (metadata : dict str) (codec : option str) :
  main a w = Some (Generate generator output_path metadata codec, w') ->
  exists bw bh,
    width generator = (if Args.portrait a then bh else bw) /\
    height generator = (if Args.portrait a then bw else bh) /\
    ((Args.landscape a = true /\ (bw, bh) = (960, 540) /\
      truthy (Args.resolution a) = false /\
      truthy (Args.preset_resolution a) = false /\
      Args.dimensions a = lit "640x480") \/
     (Args.landscape a = false /\
      dict_get resolution_presets (text (Args.resolution a)) = Some (bw, bh) /\
      truthy (Args.resolution a) = true /\
      truthy (Args.preset_resolution a) = false /\
      Args.dimensions a = lit "640x480") \/
     (Args.landscape a = false /\
      dict_get resolution_presets (text (Args.preset_resolution a))
        = Some (bw, bh) /\
      truthy (Args.resolution a) = false /\
      truthy (Args.preset_resolution a) = true /\
      Args.dimensions a = lit "640x480") \/
     (Args.landscape a = false /\
      parse_dimensions isdigit int_of_str (Args.dimensions a) = Some (bw, bh) /\
      truthy (Args.resolution a) = false /\
      truthy (Args.preset_resolution a) = false)).
Proof.
  intros H. apply main_inv in H. destruct H as [[H _]|H]; [discriminate|].
  destruct H as (_ & Hs & bw & bh & i & o & p & w1 & w2 & w3 & c & f
                 & g & w4 & Hb & _ & _ & _ & _ & _ & _ & Hg & H).
  inversion H; subst; clear H.
  apply Chimerox_init_attrs in Hg. destruct Hg as (Ha & _).
  exists bw, bh. rewrite Ha. cbn [width height].
  split; [reflexivity|split; [reflexivity|]].
  unfold sources_given in Hs. unfold base_resolution in Hb.
  destruct (Args.landscape a), (truthy (Args.resolution a)),
    (truthy (Args.preset_resolution a));
    destruct (str_eqb (Args.dimensions a) (lit "640x480")) eqn:Ed;
    cbn in Hs; try lia;
    try (apply str_eqb_eq in Ed).
  - left. inversion Hb. repeat split; try reflexivity. exact Ed.
  - right. left. repeat split; try reflexivity; [exact Hb|exact Ed].
  - right. right. left. repeat split; try reflexivity; [exact Hb|exact Ed].
  - right. right. right. repeat split; try reflexivity. exact Hb.
  - right. right. right. repeat split; try reflexivity. exact Hb.
Qed.

(** X13: a forced codec reaches [generate] validated: it is the codec given,
    one of the list of nine, and [generate] uses it as it is on the path it
    receives; that path is the file name given when its extension is
    compatible with the codec, and else the name with the codec's preferred
    extension. *)
Theorem main_forced_codec (a : Args.t) (w w' : world) (generator : Chimerox)
    (output_path : str) (metadata : dict str) (codec : option str) :
  main a w = Some (Generate generator output_path metadata codec, w') ->
  truthy (Args.codec a) = true ->
  let forced := text (Args.codec a) in
  let given := text (Args.filename a) in
  codec = Some forced /\
  str_in forced valid_codecs = true /\
  select_codec suffix_lower with_suffix codec output_path
    = Some (forced, output_path) /\
  ((is_compatible (suffix_lower given) forced = true /\ output_path = given) \/
   (is_compatible (suffix_lower given) forced = false /\
    exists ext, dict_get codec_to_ext forced = Some ext /\
                is_compatible ext forced = true /\
                with_suffix given ext = Some output_path)).
Proof.
  intros H Hc. apply main_inv in H. destruct H as [[H _]|H]; [discriminate|].
  destruct H as (_ & _ & bw & bh & i & o & p & w1 & w2 & w3 & c & f
                 & g & w4 & _ & _ & _ & _ & _ & _ & Hv & _ & H).
  remember (dict_update _ _) as md eqn:Em in H.
  inversion H; subst generator output_path metadata codec w'; clear H Em.
  rewrite Hc in Hv. destruct Hv as (c' & Hv & ->).
  cbv zeta. unfold validate_codec in Hv.
  destruct (str_in (text (Args.codec a)) valid_codecs) eqn:V;
    cbn [negb] in Hv; [|discriminate].
  destruct (valid_codec_entry _ V) as (ext & E1 & E2 & E3).
  assert (S : forall path,
             select_codec suffix_lower with_suffix
               (Some (text (Args.codec a))) path
             = Some (text (Args.codec a), path)).
  { intros path. unfold select_codec.
    destruct (text (Args.codec a)) as [|ch rest]; [discriminate|reflexivity]. }
  destruct (is_compatible (suffix_lower (text (Args.filename a)))
              (text (Args.codec a))) eqn:C; cbn [negb] in Hv.
  - inversion Hv; subst c' f. repeat split; try assumption; [apply S|].
    left. split; reflexivity.
  - rewrite E1 in Hv. cbn [obind] in Hv.
    destruct (with_suffix (text (Args.filename a)) ext) as [renamed|] eqn:W;
      [|discriminate].
    cbn [obind] in Hv. inversion Hv; subst c' f.
    repeat split; try assumption; [apply S|].
    right. split; [reflexivity|]. exists ext. repeat split; assumption.
Qed.

(** X14: with [--iota], [--omicron] and [--phase] all given, [main] takes
    nothing from the random streams it finds: from any two states of them
    it ends the same way, with the same generator, path, metadata and
    codec, and leaves the same streams behind a launch. *)
Theorem main_reproducible (a : Args.t) (w1 w2 : world) :
  Args.iota a <> None -> Args.omicron a <> None -> Args.phase a <> None ->
  match main a w1, main a w2 with
  | Some (Exit c1, _), Some (Exit c2, _) => c1 = c2
  | Some (Generate g1 p1 m1 c1, v1), Some (Generate g2 p2 m2 c2, v2) =>
      g1 = g2 /\ p1 = p2 /\ m1 = m2 /\ c1 = c2 /\ v1 = v2
  | None, None => True
  | _, _ => False
  end.
Proof.
  intros Hi Ho Hp. unfold main. rewrite sources_count.
  fold (base_resolution a).
  destruct (Args.iota a) as [i|]; [clear Hi|congruence].
  destruct (Args.omicron a) as [o|]; [clear Ho|congruence].
  destruct (Args.phase a) as [p|]; [clear Hp|congruence].
  destruct (negb (truthy (Args.filename a))); [reflexivity|].
  destruct (1 <? sources_given a); [reflexivity|].
  unfold bind, lift, ret.
  destruct (base_resolution a) as [[bw bh]|]; [|exact I].
  destruct (Args.portrait a), (Args.length a <=? 0); try exact I;
    destruct (negb ((1 <=? Args.fps a) && (Args.fps a <=? 200)));
    try exact I;
    (destruct (truthy (Args.codec a));
     [destruct (validate_codec suffix_lower with_suffix
                  (text (Args.codec a)) (text (Args.filename a)))
        as [[c f]|]; [|exact I]|]);
    rewrite (Chimerox_init_seeded _ w1), (Chimerox_init_seeded _ w2);
    destruct (Chimerox_init _ _) as [[g v]|]; try exact I; repeat split.
Qed.

End Main.

(** * Concrete inputs for the command-line layer *)

(** A small, computable stand-in for the interpreter's string and path
    functions: ASCII digits, decimal numerals, the extension as the text
    from the last dot of the last path component, a draw from the
    congruential stream, and a plain rendering of floats. *)
Module ExampleCli.

Definition isdigit (c : N) : bool := ((48 <=? c) && (c <=? 57))%N.

Definition int_of_str (s : str) : option Z :=
  match s with
  | [] => None
  | _ =>
      fold_left (fun acc c =>
                   match acc with
                   | Some n => if isdigit c then Some (10 * n + Z.of_N c - 48)
                               else None
                   | None => None
                   end) s (Some 0)
  end.

Definition lower (c : N) : N :=
  if ((65 <=? c) && (c <=? 90))%N then (c + 32)%N else c.

(** The last path component, reversed. *)
Fixpoint rev_name (r : str) : str :=
  match r with
  | [] => []
  | c :: r' => if N.eqb c 47 then [] else c :: rev_name r'
  end.

(** The extension of a reversed name, reversed, dot included. *)
Fixpoint rev_suffix (r : str) : option str :=
  match r with
  | [] => None
  | c :: r' =>
      if N.eqb c 46 then match r' with [] => None | _ => Some [c] end
      else match rev_suffix r' with
           | Some s => Some (c :: s)
           | None => None
           end
  end.

Definition suffix (f : str) : str :=
  match rev_suffix (rev_name (rev f)) with
  | Some ((_ :: _ :: _) as s) => rev s
  | _ => []
  end.

Definition suffix_lower (f : str) : str := map lower (suffix f).

Definition with_suffix (f ext : str) : option str :=
  match rev_name (rev f) with
  | [] => None
  | _ => Some (firstn (length f - length (suffix f)) f ++ ext)
  end.

Definition random_randint (a b : Z) (s : Z) : Z * Z :=
  let s' := ExampleLib.step s in (a + s' mod (b - a + 1), s').

Definition str_of_int (n : Z) : str :=
  lit (DecimalString.NilZero.string_of_int (Z.to_int n)).

Definition str_of_float (x : float) : str :=
  match x with
  | S754_zero s => if s then lit "-0.0" else lit "0.0"
  | S754_infinity s => if s then lit "-inf" else lit "inf"
  | S754_nan => lit "nan"
  | S754_finite s m e =>
      (if s then lit "-" else []) ++ str_of_int (Zpos m) ++ lit "p"
      ++ str_of_int e
  end.

(** [-i 12345 -o 7 -p 5 -t 10 -n 0.5 -e 0.5 -s 8x6 -d 1 -f 2 -c XVID
    -m Title:Demo -m generator:Other out.mp4] *)
Definition arguments : Args.t :=
  {| Args.filename := Some (lit "out.mp4");
     Args.iota := Some 12345; Args.omicron := Some 7;
     Args.phase := Some 5%py; Args.threshold := 10;
     Args.resonance := 0.5%py; Args.entropy := 0.5%py;
     Args.dimensions := lit "8x6"; Args.length := 1; Args.fps := 2;
     Args.codec := Some (lit "XVID");
     Args.meta := [lit "Title:Demo"; lit "generator:Other"];
     Args.landscape := false; Args.portrait := false;
     Args.resolution := None; Args.preset_resolution := None |}.

(** What [main] hands to [generate] on these arguments, and the streams
    it leaves. *)
Definition launched
    : Chimerox * str * dict str * option str * @world ExampleLib.lib :=
  Eval vm_compute in
  match main (L := ExampleLib.lib) isdigit int_of_str suffix_lower with_suffix
             random_randint str_of_int str_of_float arguments Examples.streams
  with
  | Some (Generate g p m c, w) => (g, p, m, c, w)
  | _ => (Examples.object 0%py, [], [], None, Examples.streams)
  end.

Definition generator : Chimerox :=
  Eval vm_compute in fst (fst (fst (fst launched))).
Definition output_path : str := Eval vm_compute in snd (fst (fst (fst launched))).
Definition metadata : dict str := Eval vm_compute in snd (fst (fst launched)).
Definition codec : option str := Eval vm_compute in snd (fst launched).
Definition streams : @world ExampleLib.lib := Eval vm_compute in snd launched.

Lemma launch :
  main (L := ExampleLib.lib) isdigit int_of_str suffix_lower with_suffix
       random_randint str_of_int str_of_float arguments Examples.streams
  = Some (Generate generator output_path metadata codec, streams).
Proof. reflexivity. Defined.

End ExampleCli.

Module Stills.

(** An object on a 4 by 3 canvas with one particle and one bokeh light, no
    waves, no vortices and a distortion below the threshold. *)
Definition tiny : config :=
  {| iota := 5; omicron := 7; phase := 0%py; threshold := 10;
     resonance := 1%py; entropy := 0.1%py;
     width := 4; height := 3; duration := 1; fps := 2 |}.

Definition light : Bokeh.t :=
  {| Bokeh.x := 1%py; Bokeh.y := 1%py; Bokeh.size := 2%py;
     Bokeh.hue := 0.5%py; Bokeh.flicker_offset := 1%py;
     Bokeh.movement_angle := 1%py; Bokeh.depth := 0.5%py |}.

Definition still : Chimerox :=
  {| args := tiny; total_frames := 2; num_particles := 1;
     particles := [Examples.leaving];
     base_hue := 0.25%py; hue_shift := 0.07%py;
     bokeh_particles := [light]; bokeh_movement_speed := 0.85%py;
     wave_count := 0; wave_curves := 1; wave_depth := 60%py;
     wave_speed := 0.028%py; wave_opacity := 92;
     vortex_centers := []; vortex_intensity := 0.15%py;
     vortex_rotation_speed := 0.03%py;
     distortion_strength := 0.03%py; distortion_type := 3;
     distortion_speed := 0.02%py; distortion_centers := [] |}.

(** Its first frame, the object after it, and the streams. *)
Definition first_frame : option (canvas * Chimerox * @world ExampleLib.lib) :=
  Eval vm_compute in draw_frame (L := ExampleLib.lib) still 0 Examples.streams.

Definition frame : canvas :=
  Eval vm_compute in
  match first_frame with Some (cv, _, _) => cv | None => [] end.
Definition after : Chimerox :=
  Eval vm_compute in
  match first_frame with Some (_, s, _) => s | None => still end.
Definition streams : @world ExampleLib.lib :=
  Eval vm_compute in
  match first_frame with Some (_, _, w) => w | None => Examples.streams end.

Lemma drawn :
  draw_frame (L := ExampleLib.lib) still 0 Examples.streams
  = Some ((frame, after), streams).
Proof. reflexivity. Defined.

End Stills.


Lemma draw_frame_keeps_entities_witness :
  Forall2 same_particle_kind (particles Stills.still) (particles Stills.after) /\
  Forall2 same_bokeh_kind (bokeh_particles Stills.still)
          (bokeh_particles Stills.after) /\
  Stills.after =
    set_particles (set_bokeh_particles Stills.still
                     (bokeh_particles Stills.after))
                  (particles Stills.after).
Proof.
  exact (draw_frame_keeps_entities (L := ExampleLib.lib) Stills.still
           Stills.after 0 Examples.streams Stills.streams Stills.frame
           Stills.drawn).
Defined.

Lemma Chimerox_init_outcome_witness :
  (Chimerox_init (L := ExampleLib.lib) Examples.small Examples.streams = None
   <-> init_defined Examples.small = false) /\
  (forall self w',
      Chimerox_init (L := ExampleLib.lib) Examples.small Examples.streams
      = Some (self, w') ->
      exists nb nv,
        py_int (25 + of_int (threshold Examples.small) * 0.08)%py = Some nb /\
        length (bokeh_particles self) = Z.to_nat nb /\
        py_int (2 + entropy Examples.small * 3)%py = Some nv /\
        length (vortex_centers self) = Z.to_nat nv /\
        length (particles self) = Z.to_nat (num_particles self)).
Proof.
  exact (Chimerox_init_outcome (L := ExampleLib.lib) Examples.small
           Examples.streams ltac:(cbn; lia) ltac:(cbn; lia) ltac:(cbn; lia)).
Defined.

Lemma validate_codec_idempotent_witness :
  validate_codec ExampleCli.suffix_lower ExampleCli.with_suffix
    (lit "XVID") (lit "out.avi") = Some (lit "XVID", lit "out.avi").
Proof.
  apply (validate_codec_idempotent ExampleCli.suffix_lower
           ExampleCli.with_suffix (lit "XVID") (lit "out.mp4")).
  - intros ext renamed E1 E2. vm_compute in E1. injection E1 as <-.
    vm_compute in E2. injection E2 as <-. reflexivity.
  - reflexivity.
Defined.

Lemma main_validated_witness :
  0 < width ExampleCli.generator /\ 0 < height ExampleCli.generator /\
  0 < duration ExampleCli.generator /\
  1 <= fps ExampleCli.generator <= 200 /\
  0 < total_frames ExampleCli.generator /\
  (Args.iota ExampleCli.arguments <> None ->
   -16581375 <= iota ExampleCli.generator <= 16581375) /\
  (Args.omicron ExampleCli.arguments <> None ->
   -604800 <= omicron ExampleCli.generator <= 604800) /\
  (Args.phase ExampleCli.arguments <> None ->
   int_le_float (-1) (phase ExampleCli.generator) = true /\
   int_ge_float 1 (phase ExampleCli.generator) = true).
Proof.
  exact (main_validated (L := ExampleLib.lib) ExampleCli.isdigit
           ExampleCli.int_of_str ExampleCli.suffix_lower
           ExampleCli.with_suffix ExampleCli.random_randint
           ExampleCli.str_of_int ExampleCli.str_of_float
           ExampleCli.arguments Examples.streams ExampleCli.streams
           ExampleCli.generator ExampleCli.output_path ExampleCli.metadata
           ExampleCli.codec ExampleCli.launch).
Defined.

Lemma main_metadata_witness :
  dict_get ExampleCli.metadata (lit "generator") = Some (lit "Chimerox") /\
  dict_get ExampleCli.metadata (lit "Title") = Some (lit "Demo") /\
  dict_get ExampleCli.metadata (lit "phase") = Some (lit "1").
Proof.
  pose proof (main_metadata (L := ExampleLib.lib) ExampleCli.isdigit
                ExampleCli.int_of_str ExampleCli.suffix_lower
                ExampleCli.with_suffix ExampleCli.random_randint
                ExampleCli.str_of_int ExampleCli.str_of_float
                ExampleCli.arguments Examples.streams ExampleCli.streams
                ExampleCli.generator ExampleCli.output_path
                ExampleCli.metadata ExampleCli.codec ExampleCli.launch)
    as (G & _ & _ & _ & _ & _ & _ & _ & _ & (p & P & _ & C) & U & _).
  split; [exact G|]. split; [rewrite (U (lit "Title") eq_refl); reflexivity|].
  rewrite P. cbn in C. rewrite C. reflexivity.
Defined.

Lemma main_resolution_witness :
  let a := ExampleCli.arguments in
  exists bw bh,
    width ExampleCli.generator = (if Args.portrait a then bh else bw) /\
    height ExampleCli.generator = (if Args.portrait a then bw else bh) /\
    ((Args.landscape a = true /\ (bw, bh) = (960, 540) /\
      truthy (Args.resolution a) = false /\
      truthy (Args.preset_resolution a) = false /\
      Args.dimensions a = lit "640x480") \/
     (Args.landscape a = false /\
      dict_get resolution_presets (text (Args.resolution a)) = Some (bw, bh) /\
      truthy (Args.resolution a) = true /\
      truthy (Args.preset_resolution a) = false /\
      Args.dimensions a = lit "640x480") \/
     (Args.landscape a = false /\
      dict_get resolution_presets (text (Args.preset_resolution a))
        = Some (bw, bh) /\
      truthy (Args.resolution a) = false /\
      truthy (Args.preset_resolution a) = true /\
      Args.dimensions a = lit "640x480") \/
     (Args.landscape a = false /\
      parse_dimensions ExampleCli.isdigit ExampleCli.int_of_str
        (Args.dimensions a) = Some (bw, bh) /\
      truthy (Args.resolution a) = false /\
      truthy (Args.preset_resolution a) = false)).
Proof.
  exact (main_resolution (L := ExampleLib.lib) ExampleCli.isdigit
           ExampleCli.int_of_str ExampleCli.suffix_lower
           ExampleCli.with_suffix ExampleCli.random_randint
           ExampleCli.str_of_int ExampleCli.str_of_float
           ExampleCli.arguments Examples.streams ExampleCli.streams
           ExampleCli.generator ExampleCli.output_path ExampleCli.metadata
           ExampleCli.codec ExampleCli.launch).
Defined.

Lemma main_forced_codec_witness :
  ExampleCli.codec = Some (lit "XVID") /\
  str_in (lit "XVID") valid_codecs = true /\
  select_codec ExampleCli.suffix_lower ExampleCli.with_suffix
    ExampleCli.codec ExampleCli.output_path
  = Some (lit "XVID", ExampleCli.output_path) /\
  ((is_compatible (ExampleCli.suffix_lower (lit "out.mp4")) (lit "XVID") = true
    /\ ExampleCli.output_path = lit "out.mp4") \/
   (is_compatible (ExampleCli.suffix_lower (lit "out.mp4")) (lit "XVID") = false
    /\ exists ext, dict_get codec_to_ext (lit "XVID") = Some ext /\
                   is_compatible ext (lit "XVID") = true /\
                   ExampleCli.with_suffix (lit "out.mp4") ext
                   = Some ExampleCli.output_path)).
Proof.
  exact (main_forced_codec (L := ExampleLib.lib) ExampleCli.isdigit
           ExampleCli.int_of_str ExampleCli.suffix_lower
           ExampleCli.with_suffix ExampleCli.random_randint
           ExampleCli.str_of_int ExampleCli.str_of_float
           ExampleCli.arguments Examples.streams ExampleCli.streams
           ExampleCli.generator ExampleCli.output_path ExampleCli.metadata
           ExampleCli.codec ExampleCli.launch eq_refl).
Defined.

Lemma main_reproducible_witness :
  match
    main (L := ExampleLib.lib) ExampleCli.isdigit
           ExampleCli.int_of_str ExampleCli.suffix_lower
           ExampleCli.with_suffix ExampleCli.random_randint
           ExampleCli.str_of_int ExampleCli.str_of_float
         ExampleCli.arguments Examples.streams,
    main (L := ExampleLib.lib) ExampleCli.isdigit
           ExampleCli.int_of_str ExampleCli.suffix_lower
           ExampleCli.with_suffix ExampleCli.random_randint
           ExampleCli.str_of_int ExampleCli.str_of_float
         ExampleCli.arguments ExampleCli.streams
  with
  | Some (Exit c1, _), Some (Exit c2, _) => c1 = c2
  | Some (Generate g1 p1 m1 c1, v1), Some (Generate g2 p2 m2 c2, v2) =>
      g1 = g2 /\ p1 = p2 /\ m1 = m2 /\ c1 = c2 /\ v1 = v2
  | None, None => True
  | _, _ => False
  end.
Proof.
  exact (main_reproducible (L := ExampleLib.lib) ExampleCli.isdigit
           ExampleCli.int_of_str ExampleCli.suffix_lower
           ExampleCli.with_suffix ExampleCli.random_randint
           ExampleCli.str_of_int ExampleCli.str_of_float
           ExampleCli.arguments Examples.streams ExampleCli.streams
           ltac:(discriminate) ltac:(discriminate) ltac:(discriminate)).
Defined.

Lemma frames_independent_of_timing_witness :
  exists rest,
    fst (run (L := ExampleLib.lib) (retimed Examples.small 1 3)
             Examples.streams)
    = fst (run (L := ExampleLib.lib) Examples.small Examples.streams) ++ rest /\
    (snd (run (L := ExampleLib.lib) Examples.small Examples.streams) = false ->
     rest = [] /\
     snd (run (L := ExampleLib.lib) (retimed Examples.small 1 3)
              Examples.streams) = false) /\
    (duration Examples.small * fps Examples.small = 1 * 3 ->
     rest = [] /\
     snd (run (L := ExampleLib.lib) (retimed Examples.small 1 3)
              Examples.streams)
     = snd (run (L := ExampleLib.lib) Examples.small Examples.streams)).
Proof.
  exact (frames_independent_of_timing (L := ExampleLib.lib) Examples.small
           1 3 Examples.streams ltac:(cbn; lia)).
Defined.
